(** * Compass: heading math and sensor lifecycle of [components/Compass copy.tsx]

    A shallow embedding of the compass component.  The source file holds two
    versions of the component (called variant 1 and variant 2 below); they
    share [clampHeadingDegrees], [shortestDeltaDegrees] and
    [cardinalFromHeading] and differ in [headingFromMagnetometer], in the
    sample callback and in the calibration thresholds.

    Two models of the numbers are used.

    Most of the development reads JavaScript numbers as mathematical
    reals: every arithmetic operation is exact, there is no rounding, no
    NaN, no infinity and no negative zero.  The operators the source uses
    are written out on [R]: [%] as the truncated remainder, [Math.round] as
    rounding half up, [Math.atan2] by its quadrant table, [Math.sqrt] as
    [sqrt].  Lemmas that hold in this exact arithmetic only carry the
    suffix [_exact].

    Module [Double] gives [clampHeadingDegrees], [shortestDeltaDegrees]
    and the smoothing step of the listener on finite IEEE-754 binary64
    numbers, as rationals: [+] and [-] round to the nearest double, ties to
    even, and [%] is exact.  Infinities, NaN and the sign of zero are left
    out, and so are [Math.atan2] and [Math.sqrt], whose rounding the
    language leaves to the implementation. *)

From Stdlib Require Import Reals Lra Lia ZArith List String Bool.
From Stdlib Require Import QArith Qround Qabs Qpower.
From Stdlib Require Lqa.
Import ListNotations.
Open Scope R_scope.

(** ** JavaScript numeric operators on reals *)

Module JS.

(** Truncation toward zero, the integer quotient behind [%]. *)
Definition trunc (r : R) : Z :=
  if Rle_dec 0 r then Int_part r else (- Int_part (- r))%Z.

(** [a % m]: the remainder has the sign of the dividend. *)
Definition rem (a m : R) : R := a - m * IZR (trunc (a / m)).

(** [Math.round]: the nearest integer, ties toward +infinity. *)
Definition round (r : R) : Z := Int_part (r + / 2).

(** [Math.atan2 y x] for finite arguments, by quadrant. *)
Definition atan2 (y x : R) : R :=
  if Rlt_dec 0 x then atan (y / x)
  else if Rlt_dec x 0 then
    if Rle_dec 0 y then atan (y / x) + PI else atan (y / x) - PI
  else if Rlt_dec 0 y then PI / 2
  else if Rlt_dec y 0 then - (PI / 2)
  else 0.

(** [arr[i]] for an integer index: [undefined] outside the array. *)
Definition index {A : Type} (arr : list A) (i : Z) : option A :=
  if (i <? 0)%Z then None else nth_error arr (Z.to_nat i).

End JS.

(** ** HeadingMath: the pure functions of the component *)

Record MagnetometerReading : Type := mkReading { x : R; y : R; z : R }.

Definition clampHeadingDegrees (deg : R) : R :=
  let v := JS.rem deg 360 in
  if Rlt_dec v 0 then v + 360 else v.

Definition shortestDeltaDegrees (fromDeg toDeg : R) : R :=
  let a := clampHeadingDegrees fromDeg in
  let b := clampHeadingDegrees toDeg in
  JS.rem (b - a + 540) 360 - 180.

(** Variant 1: [atan2(y, x)], rotated by 90 degrees. *)
Definition headingFromMagnetometer1 (d : MagnetometerReading) : R :=
  let angleRad := JS.atan2 (y d) (x d) in
  let angleDeg := angleRad * 180 / PI in
  clampHeadingDegrees (angleDeg + 90).

(** Variant 2: [atan2(-x, y)], no offset. *)
Definition headingFromMagnetometer2 (d : MagnetometerReading) : R :=
  let angleRad := JS.atan2 (- x d) (y d) in
  let angleDeg := angleRad * 180 / PI in
  clampHeadingDegrees angleDeg.

Definition headings : list string :=
  ["N"; "NE"; "E"; "SE"; "S"; "SW"; "W"; "NW"]%string.

Definition cardinalFromHeading (deg : R) : option string :=
  let idx := Z.rem (JS.round (clampHeadingDegrees deg / 45)) 8 in
  JS.index headings idx.

(** The formula the specification gives for normalisation, with the same
    truncated remainder: [((deg mod 360) + 360) mod 360]. *)
Definition normalizeDegrees_spec (deg : R) : R :=
  JS.rem (JS.rem deg 360 + 360) 360.

(** ** The same arithmetic on binary64 numbers *)

Module Double.
Local Open Scope Q_scope.

(** [floor (log2 |q|)], for [q] other than 0. *)
Definition ilog2 (q : Q) : Z :=
  let a := Qabs q in
  if Qle_bool 1 a then Z.log2 (Qfloor a) else (- Z.log2_up (Qceiling (/ a)))%Z.

(** The exponent of the last place of the double nearest to [q]: 52 binary
    places below the leading one, and never below 2^-1074. *)
Definition ulp_exponent (q : Q) : Z := Z.max (ilog2 q - 52) (-1074).

(** The nearest integer, ties to the even one. *)
Definition nearest_even (q : Q) : Z :=
  let f := Qfloor q in
  match Qcompare (q - inject_Z f) (1 # 2) with
  | Lt => f
  | Gt => (f + 1)%Z
  | Eq => if Z.even f then f else (f + 1)%Z
  end.

(** Rounding to the nearest double (below the overflow threshold). *)
Definition round (q : Q) : Q :=
  if Qeq_bool q 0 then 0
  else let e := ulp_exponent q in
       Qred (inject_Z (nearest_even (q / 2 ^ e)) * 2 ^ e).

(** [a + b] and [a - b] on doubles. *)
Definition add (a b : Q) : Q := round (a + b).
Definition sub (a b : Q) : Q := round (a - b).

(** [a % m] on doubles: the truncated remainder, which is exact. *)
Definition trunc (q : Q) : Z := if Qlt_le_dec q 0 then Qceiling q else Qfloor q.
Definition rem (a m : Q) : Q := Qred (a - m * inject_Z (trunc (a / m))).

Definition clampHeadingDegrees (deg : Q) : Q :=
  let v := rem deg 360 in
  if Qlt_le_dec v 0 then add v 360 else v.

Definition shortestDeltaDegrees (fromDeg toDeg : Q) : Q :=
  let a := clampHeadingDegrees fromDeg in
  let b := clampHeadingDegrees toDeg in
  sub (rem (add (sub b a) 540) 360) 180.

(** The formula of the specification, [((deg % 360) + 360) % 360]. *)
Definition normalizeDegrees_spec (deg : Q) : Q := rem (add (rem deg 360) 360) 360.

(** The smoothing step of the listener of variant 1 for a heading [h]:
    [current + shortestDeltaDegrees(current, h)]. *)
Definition nextRotation (current h : Q) : Q :=
  let delta := shortestDeltaDegrees current h in
  add current delta.




End Double.

(** ** The component: view state, sensor registry and callbacks *)

(** Which of the two versions of the component is running. *)
Inductive Variant : Type := V1 | V2.

(** The hook state of [Compass], the shared animated value, the closure
    variable [sub] of the sensor effect and the part of the [Magnetometer]
    module the effect touches.  [rotationDeg] is what reading
    [rotationDeg.value] returns; [rotationTarget] is the end value of the
    [withTiming] transition last assigned to it. *)
Record CompassState : Type := mkState {
  mounted : bool;
  probing : bool;                 (* [isAvailableAsync()] not yet resolved *)
  available : option bool;        (* [useState<boolean | null>(null)] *)
  heading : R;                    (* [useState(0)] *)
  accuracyHint : option string;   (* [useState<string | null>(null)] *)
  rotationDeg : R;                (* [useSharedValue(0)], current value *)
  rotationTarget : R;
  sub : option nat;               (* [let sub = null] *)
  listeners : list nat;           (* listeners registered on the sensor *)
  nextListener : nat;
  updateInterval : option Z       (* [Magnetometer.setUpdateInterval] *)
}.

Definition calibrationMessage : string := "Move phone in a figure‑8 to calibrate".

(** State right after the first render and the effects of the mount. *)
Definition mount : CompassState :=
  {| mounted := true; probing := true; available := None; heading := 0;
     accuracyHint := None; rotationDeg := 0; rotationTarget := 0;
     sub := None; listeners := []; nextListener := 0%nat;
     updateInterval := None |}.

(** What one run of the listener writes: [setHeading], the transition
    assigned to [rotationDeg.value], [setAccuracyHint]. *)
Definition writeSample (s : CompassState) (h next : R) (hint : option string)
  : CompassState :=
  {| mounted := mounted s; probing := probing s; available := available s;
     heading := h; accuracyHint := hint;
     rotationDeg := rotationDeg s; rotationTarget := next;
     sub := sub s; listeners := listeners s; nextListener := nextListener s;
     updateInterval := updateInterval s |}.

(** The listener of variant 1. *)
Definition onSample1 (s : CompassState) (data : MagnetometerReading) : CompassState :=
  let h := headingFromMagnetometer1 data in
  let current := rotationDeg s in
  let delta := shortestDeltaDegrees current h in
  let next := current + delta in
  let mag := sqrt (x data * x data + y data * y data + z data * z data) in
  let hint :=
    if Rlt_dec mag 15 then Some calibrationMessage
    else if Rlt_dec 80 mag then Some calibrationMessage
    else None in
  writeSample s h next hint.

(** The listener of variant 2. *)
Definition onSample2 (s : CompassState) (data : MagnetometerReading) : CompassState :=
  let h := headingFromMagnetometer2 data in
  let current := JS.rem (rotationDeg s) 360 in
  let delta := shortestDeltaDegrees current h in
  let next := current + delta in
  let mag := sqrt (x data ^ 2 + y data ^ 2 + z data ^ 2) in
  let hint :=
    if Rlt_dec mag 25 then Some calibrationMessage
    else if Rlt_dec 65 mag then Some calibrationMessage
    else None in
  writeSample s (IZR (JS.round h)) next hint.

Definition onSample (v : Variant) : CompassState -> MagnetometerReading -> CompassState :=
  match v with V1 => onSample1 | V2 => onSample2 end.

Definition intervalMs (v : Variant) : Z :=
  match v with V1 => 80%Z | V2 => 100%Z end.

(** What can happen to a mounted component. *)
Inductive Event : Type :=
| ProbeResolved (isAvailable : bool)       (* the awaited probe resolves *)
| SensorSample (data : MagnetometerReading) (* the sensor has a new reading *)
| AnimationFrame (t : R)                    (* the transition has run a fraction [t] *)
| Unmount.                                  (* the effect's cleanup runs *)

(** The body of the async function after the [await]. *)
Definition afterProbe (v : Variant) (s : CompassState) (isAvailable : bool)
  : CompassState :=
  if negb isAvailable then
    {| mounted := mounted s; probing := false; available := Some isAvailable;
       heading := heading s; accuracyHint := accuracyHint s;
       rotationDeg := rotationDeg s; rotationTarget := rotationTarget s;
       sub := sub s; listeners := listeners s; nextListener := nextListener s;
       updateInterval := updateInterval s |}
  else
    {| mounted := mounted s; probing := false; available := Some isAvailable;
       heading := heading s; accuracyHint := accuracyHint s;
       rotationDeg := rotationDeg s; rotationTarget := rotationTarget s;
       sub := Some (nextListener s);
       listeners := nextListener s :: listeners s;
       nextListener := S (nextListener s);
       updateInterval := Some (intervalMs v) |}.

(** The cleanup of the sensor effect: [sub?.remove()]. *)
Definition cleanup (s : CompassState) : CompassState :=
  {| mounted := false; probing := probing s; available := available s;
     heading := heading s; accuracyHint := accuracyHint s;
     rotationDeg := rotationDeg s; rotationTarget := rotationTarget s;
     sub := sub s;
     listeners :=
       match sub s with
       | Some id => filter (fun l => negb (Nat.eqb l id)) (listeners s)
       | None => listeners s
       end;
     nextListener := nextListener s; updateInterval := updateInterval s |}.

(** The running transition moves the value a fraction [t] of the way to
    its target. *)
Definition animate (s : CompassState) (t : R) : CompassState :=
  {| mounted := mounted s; probing := probing s; available := available s;
     heading := heading s; accuracyHint := accuracyHint s;
     rotationDeg := rotationDeg s + t * (rotationTarget s - rotationDeg s);
     rotationTarget := rotationTarget s;
     sub := sub s; listeners := listeners s; nextListener := nextListener s;
     updateInterval := updateInterval s |}.

Definition step (v : Variant) (s : CompassState) (e : Event) : CompassState :=
  match e with
  | ProbeResolved isAvailable =>
      if probing s then afterProbe v s isAvailable else s
  | SensorSample data =>
      fold_left (fun st _ => onSample v st data) (listeners s) s
  | AnimationFrame t =>
      if Rle_dec 0 t then if Rle_dec t 1 then animate s t else s else s
  | Unmount =>
      if mounted s then cleanup s else s
  end.

Definition run (v : Variant) (s : CompassState) (trace : list Event) : CompassState :=
  fold_left (step v) trace s.

(** What the card shows: the rounded heading, the cardinal label and the
    subtitle chosen by [cardSubtitle]. *)
Definition cardSubtitle (os : string) (s : CompassState) : string :=
  match available s with
  | Some false => "Magnetometer unavailable on this device"
  | _ =>
      if String.eqb os "web" then "Compass works best on a real device"
      else match accuracyHint s with
           | Some hint => hint
           | None => "Align the top edge with your direction"
           end
  end.

Definition shownHeading (s : CompassState) : Z := JS.round (heading s).

Definition shownCardinal (s : CompassState) : option string :=
  cardinalFromHeading (heading s).

(** ** States of the subscription lifecycle *)

(** Mounted or not, the probe has not resolved: nothing was subscribed and
    nothing moved. *)
Definition awaiting_probe (s : CompassState) : Prop :=
  probing s = true /\ available s = None /\ sub s = None /\
  listeners s = [] /\ heading s = 0 /\ accuracyHint s = None /\
  rotationDeg s = 0 /\ rotationTarget s = 0.

(** The probe answered no: nothing was subscribed and nothing moved. *)
Definition unavailable_idle (s : CompassState) : Prop :=
  available s = Some false /\ probing s = false /\ sub s = None /\
  listeners s = [] /\ heading s = 0 /\ accuracyHint s = None /\
  rotationDeg s = 0 /\ rotationTarget s = 0.

(** The component is gone and its listener is still registered. *)
Definition orphaned (id : nat) (s : CompassState) : Prop :=
  mounted s = false /\ probing s = false /\ listeners s = [id].

(** The component is mounted and holds its one listener. *)
Definition subscribed (id : nat) (s : CompassState) : Prop :=
  mounted s = true /\ probing s = false /\ sub s = Some id /\ listeners s = [id].

(** The component is gone and so is every listener. *)
Definition released (s : CompassState) : Prop :=
  mounted s = false /\ probing s = false /\ listeners s = [].

(** ** What holds of the subscription in every state of a run *)

Definition lifecycle_ok (v : Variant) (s : CompassState) : Prop :=
  (probing s = true /\ available s = None /\ sub s = None /\
   listeners s = [] /\ nextListener s = 0%nat) \/
  (probing s = false /\ available s = Some false /\ listeners s = []) \/
  (probing s = false /\ available s = Some true /\ sub s = Some 0%nat /\
   updateInterval s = Some (intervalMs v) /\
   (listeners s = [0%nat] \/ (mounted s = false /\ listeners s = []))).

(** The stored heading against the rotation target, per variant. *)
Definition target_follows_heading (v : Variant) (s : CompassState) : Prop :=
  match v with
  | V1 => clampHeadingDegrees (rotationTarget s) = heading s
  | V2 => Rabs (heading s - clampHeadingDegrees (rotationTarget s)) <= / 2
  end.

(** A reading on the axis a quarter turn further than the [i]-th one, for
    variant 1: +x, +y, -x, -y and again. *)
Definition quarterReading (i : nat) : MagnetometerReading :=
  match Nat.modulo i 4 with
  | 0%nat => mkReading 1 0 0
  | 1%nat => mkReading 0 1 0
  | 2%nat => mkReading (-1) 0 0
  | _ => mkReading 0 (-1) 0
  end.

(** [n] readings a quarter turn apart, each followed by the end of its
    transition. *)
Fixpoint quarterTurns (from n : nat) : list Event :=
  match n with
  | O => []
  | S n' => SensorSample (quarterReading from) :: AnimationFrame 1
            :: quarterTurns (S from) n'
  end.

(** ** Facts about the numeric operators *)

Section Remainder.

Lemma trunc_nonneg r : 0 <= r -> IZR (JS.trunc r) <= r < IZR (JS.trunc r) + 1.
Proof.
  intros Hr. unfold JS.trunc. destruct (Rle_dec 0 r) as [_|n]; [|contradiction].
  destruct (base_Int_part r). lra.
Qed.

Lemma trunc_neg r : r < 0 -> r <= IZR (JS.trunc r) < r + 1.
Proof.
  intros Hr. unfold JS.trunc. destruct (Rle_dec 0 r) as [p|_]; [lra|].
  rewrite opp_IZR. destruct (base_Int_part (- r)). lra.
Qed.

Lemma rem_decomp a m : a = IZR (JS.trunc (a / m)) * m + JS.rem a m.
Proof. unfold JS.rem. ring. Qed.

Lemma rem_nonneg a m : 0 < m -> 0 <= a -> 0 <= JS.rem a m < m.
Proof.
  intros Hm Ha. unfold JS.rem.
  assert (Ht : 0 <= a / m) by (apply Rmult_le_pos; [lra | left; now apply Rinv_0_lt_compat]).
  assert (Ea : a = a / m * m) by (field; lra).
  destruct (trunc_nonneg _ Ht) as [H1 H2].
  set (t := a / m) in *. set (k := IZR (JS.trunc t)) in *.
  rewrite Ea. split; nra.
Qed.

Lemma rem_neg a m : 0 < m -> a < 0 -> - m < JS.rem a m <= 0.
Proof.
  intros Hm Ha. unfold JS.rem.
  assert (Ea : a = a / m * m) by (field; lra).
  assert (Ht : a / m < 0).
  { assert (0 < / m) by now apply Rinv_0_lt_compat. unfold Rdiv. nra. }
  destruct (trunc_neg _ Ht) as [H1 H2].
  set (t := a / m) in *. set (k := IZR (JS.trunc t)) in *.
  rewrite Ea. split; nra.
Qed.

(** Two integers whose multiples of [m] differ by less than [m] are equal. *)
Lemma IZR_gap_eq (j k : Z) (m u v : R) :
  0 < m -> IZR j * m + u = IZR k * m + v -> - m < u - v < m -> j = k.
Proof.
  intros Hm E B.
  assert (Hd : -1 < IZR (j - k) < 1).
  { rewrite minus_IZR. split; nra. }
  destruct Hd as [Hl Hu].
  apply lt_IZR in Hu. apply (lt_IZR (-1)) in Hl. lia.
Qed.

End Remainder.

(** ** Facts about normalisation and the shortest delta *)

Section Normalisation.

Lemma clamp_range d : 0 <= clampHeadingDegrees d < 360.
Proof.
  unfold clampHeadingDegrees. cbv zeta.
  destruct (Rlt_dec (JS.rem d 360) 0) as [Hv|Hv].
  - destruct (Rle_or_lt 0 d) as [Hd|Hd].
    + pose proof (rem_nonneg d 360 ltac:(lra) Hd). lra.
    + pose proof (rem_neg d 360 ltac:(lra) Hd). lra.
  - destruct (Rle_or_lt 0 d) as [Hd|Hd].
    + pose proof (rem_nonneg d 360 ltac:(lra) Hd). lra.
    + pose proof (rem_neg d 360 ltac:(lra) Hd). lra.
Qed.

Lemma clamp_congr d : exists k : Z, d = IZR k * 360 + clampHeadingDegrees d.
Proof.
  unfold clampHeadingDegrees. cbv zeta.
  pose proof (rem_decomp d 360) as E.
  destruct (Rlt_dec (JS.rem d 360) 0) as [Hv|Hv].
  - exists (JS.trunc (d / 360) - 1)%Z. rewrite minus_IZR. lra.
  - exists (JS.trunc (d / 360)). exact E.
Qed.

Lemma clamp_unique d (k : Z) r :
  0 <= r < 360 -> d = IZR k * 360 + r -> clampHeadingDegrees d = r.
Proof.
  intros Hr E. destruct (clamp_congr d) as [j Ej].
  pose proof (clamp_range d) as Hc.
  assert (j = k).
  { apply (IZR_gap_eq j k 360 (clampHeadingDegrees d) r); lra. }
  subst j. lra.
Qed.

Lemma clamp_shift d (k : Z) :
  clampHeadingDegrees (d + IZR k * 360) = clampHeadingDegrees d.
Proof.
  destruct (clamp_congr d) as [j Ej].
  apply (clamp_unique _ (j + k)%Z); [apply clamp_range|].
  rewrite plus_IZR. lra.
Qed.

Lemma clamp_idem d : clampHeadingDegrees (clampHeadingDegrees d) = clampHeadingDegrees d.
Proof. apply (clamp_unique _ 0%Z); [apply clamp_range | lra]. Qed.

Lemma clamp_fixed d : 0 <= d < 360 -> clampHeadingDegrees d = d.
Proof. intros H. apply (clamp_unique _ 0%Z); lra. Qed.

Lemma rem_unique_nonneg a m (k : Z) r :
  0 < m -> 0 <= a -> 0 <= r < m -> a = IZR k * m + r -> JS.rem a m = r.
Proof.
  intros Hm Ha Hr E.
  pose proof (rem_nonneg a m Hm Ha) as B. pose proof (rem_decomp a m) as D.
  assert (JS.trunc (a / m) = k).
  { apply (IZR_gap_eq _ _ m (JS.rem a m) r); lra. }
  subst k. lra.
Qed.

Lemma rem_unique_neg a m (k : Z) r :
  0 < m -> a < 0 -> - m < r <= 0 -> a = IZR k * m + r -> JS.rem a m = r.
Proof.
  intros Hm Ha Hr E.
  pose proof (rem_neg a m Hm Ha) as B. pose proof (rem_decomp a m) as D.
  assert (JS.trunc (a / m) = k).
  { apply (IZR_gap_eq _ _ m (JS.rem a m) r); lra. }
  subst k. lra.
Qed.

(** The argument of the outer [%] in [shortestDeltaDegrees] is positive. *)
Lemma delta_arg_pos a b :
  180 < clampHeadingDegrees b - clampHeadingDegrees a + 540 < 900.
Proof.
  pose proof (clamp_range a). pose proof (clamp_range b). lra.
Qed.

Lemma delta_range a b : -180 <= shortestDeltaDegrees a b < 180.
Proof.
  unfold shortestDeltaDegrees. cbv zeta.
  pose proof (delta_arg_pos a b) as P.
  pose proof (rem_nonneg (clampHeadingDegrees b - clampHeadingDegrees a + 540) 360
                ltac:(lra) ltac:(lra)).
  lra.
Qed.

Lemma delta_congr a b :
  exists k : Z, a + shortestDeltaDegrees a b = b + IZR k * 360.
Proof.
  unfold shortestDeltaDegrees. cbv zeta.
  destruct (clamp_congr a) as [ja Ea]. destruct (clamp_congr b) as [jb Eb].
  pose proof (rem_decomp (clampHeadingDegrees b - clampHeadingDegrees a + 540) 360) as D.
  set (q := JS.trunc ((clampHeadingDegrees b - clampHeadingDegrees a + 540) / 360)) in *.
  exists (ja - jb - q + 1)%Z.
  rewrite plus_IZR, !minus_IZR. lra.
Qed.

Lemma delta_unique a b (k : Z) r :
  -180 <= r < 180 -> a + r = b + IZR k * 360 -> shortestDeltaDegrees a b = r.
Proof.
  intros Hr E. destruct (delta_congr a b) as [j Ej].
  pose proof (delta_range a b) as B.
  assert (j = k).
  { apply (IZR_gap_eq j k 360 (- shortestDeltaDegrees a b) (- r)); lra. }
  subst j. lra.
Qed.

Lemma clamp_after_delta a b :
  clampHeadingDegrees (a + shortestDeltaDegrees a b) = clampHeadingDegrees b.
Proof.
  destruct (delta_congr a b) as [k E]. rewrite E. apply clamp_shift.
Qed.

Lemma clamp_eq_congr u v :
  clampHeadingDegrees u = clampHeadingDegrees v ->
  exists k : Z, u = v + IZR k * 360.
Proof.
  intros E. destruct (clamp_congr u) as [j Ej]. destruct (clamp_congr v) as [i Ei].
  exists (j - i)%Z. rewrite minus_IZR. lra.
Qed.

End Normalisation.

(** ** Normalisation: range and agreement with the specified formula *)

Lemma rem_bounds a : -360 < JS.rem a 360 < 360.
Proof.
  destruct (Rle_or_lt 0 a) as [Ha|Ha].
  - pose proof (rem_nonneg a 360 ltac:(lra) Ha). lra.
  - pose proof (rem_neg a 360 ltac:(lra) Ha). lra.
Qed.

Lemma clamp_rem a : clampHeadingDegrees (JS.rem a 360) = clampHeadingDegrees a.
Proof.
  destruct (clamp_congr a) as [k Ek].
  apply (clamp_unique _ (k - JS.trunc (a / 360))%Z); [apply clamp_range|].
  pose proof (rem_decomp a 360). rewrite minus_IZR. lra.
Qed.

(** In exact arithmetic the normalised angle lies in [0, 360), and the
    branch on the sign of [d % 360] computes the same value as the formula
    [((d % 360) + 360) % 360]. *)
Lemma clampHeadingDegrees_range_and_formula_exact (d : R) :
  0 <= clampHeadingDegrees d < 360 /\
  clampHeadingDegrees d = normalizeDegrees_spec d.
Proof.
  split; [apply clamp_range|].
  unfold normalizeDegrees_spec, clampHeadingDegrees. cbv zeta.
  pose proof (rem_bounds d) as B. symmetry.
  destruct (Rlt_dec (JS.rem d 360) 0) as [Hv|Hv].
  - apply (rem_unique_nonneg _ _ 0%Z); lra.
  - apply (rem_unique_nonneg _ _ 1%Z); lra.
Qed.

(** ** The shortest delta *)

Lemma delta_0_180 : shortestDeltaDegrees 0 180 = -180.
Proof. apply (delta_unique _ _ (-1)%Z); lra. Qed.

Lemma delta_10_350 : shortestDeltaDegrees 10 350 = -20.
Proof. apply (delta_unique _ _ (-1)%Z); lra. Qed.



(** In exact arithmetic adding the delta to the start reaches the target
    modulo 360, and no rotation that reaches the target is shorter. *)
Lemma shortestDelta_minimal_exact (a b : R) :
  (-180 <= shortestDeltaDegrees a b < 180) /\
  clampHeadingDegrees (a + shortestDeltaDegrees a b) = clampHeadingDegrees b /\
  (forall r : R,
      clampHeadingDegrees (a + r) = clampHeadingDegrees b ->
      Rabs (shortestDeltaDegrees a b) <= Rabs r) /\
  shortestDeltaDegrees 10 350 = -20.
Proof.
  pose proof (delta_range a b) as B.
  repeat split; try lra.
  - apply clamp_after_delta.
  - intros r Hr.
    rewrite <- (clamp_after_delta a b) in Hr.
    apply clamp_eq_congr in Hr. destruct Hr as [k Ek].
    assert (Er : r = shortestDeltaDegrees a b + IZR k * 360) by lra.
    destruct (Z.lt_trichotomy k 0) as [Hk|[Hk|Hk]].
    + assert (IZR k <= -1) by (apply IZR_le; lia).
      rewrite (Rabs_left r) by lra.
      unfold Rabs. destruct (Rcase_abs (shortestDeltaDegrees a b)); lra.
    + subst k. replace r with (shortestDeltaDegrees a b) by lra. lra.
    + assert (1 <= IZR k) by (apply IZR_le; lia).
      rewrite (Rabs_right r) by lra.
      unfold Rabs. destruct (Rcase_abs (shortestDeltaDegrees a b)); lra.
  - apply delta_10_350.
Qed.

(** ** The cardinal label *)

Lemma round_unique r (k : Z) : IZR k - / 2 <= r < IZR k + / 2 -> JS.round r = k.
Proof.
  intros H. unfold JS.round. symmetry. apply Int_part_spec. lra.
Qed.

Lemma cardinal_of_bucket d (k : Z) :
  IZR k - / 2 <= clampHeadingDegrees d / 45 < IZR k + / 2 ->
  cardinalFromHeading d = JS.index headings (Z.rem k 8).
Proof.
  intros H. unfold cardinalFromHeading. cbv zeta.
  now rewrite (round_unique _ k H).
Qed.

Lemma cardinal_360_periodic d : cardinalFromHeading (d + 360) = cardinalFromHeading d.
Proof.
  unfold cardinalFromHeading.
  replace (d + 360) with (d + IZR 1 * 360) by lra.
  now rewrite clamp_shift.
Qed.

Lemma cardinal_north d (k : Z) :
  - (45 / 2) <= d - IZR k * 360 < 45 / 2 -> cardinalFromHeading d = Some "N"%string.
Proof.
  intros H. destruct (Rle_or_lt 0 (d - IZR k * 360)) as [Hp|Hn].
  - assert (E : clampHeadingDegrees d = d - IZR k * 360)
      by (apply (clamp_unique _ k); lra).
    rewrite (cardinal_of_bucket d 0); [reflexivity | rewrite E; lra].
  - assert (E : clampHeadingDegrees d = d - IZR k * 360 + 360).
    { apply (clamp_unique _ (k - 1)%Z); [lra | rewrite minus_IZR; lra]. }
    rewrite (cardinal_of_bucket d 8); [reflexivity | rewrite E; lra].
Qed.

Lemma cardinal_at_boundary : cardinalFromHeading (45 / 2) = Some "NE"%string.
Proof.
  rewrite (cardinal_of_bucket _ 1); [reflexivity|].
  rewrite clamp_fixed; lra.
Qed.

(** C4, as stated, fails at the upper edge: 22.5 is within 22.5 degrees of
    0 and is labelled NE. *)
Lemma cardinal_north_edge_is_NE :
  ~ (forall d : R, Rabs (d - 0) <= 45 / 2 -> cardinalFromHeading d = Some "N"%string).
Proof.
  intros H. specialize (H (45 / 2)).
  rewrite cardinal_at_boundary in H.
  assert (Hd : Rabs (45 / 2 - 0) <= 45 / 2) by (rewrite Rabs_right; lra).
  specialize (H Hd). discriminate H.
Qed.

(** C4, amended.  The label has period 360; every heading [d] with
    -22.5 <= d < 22.5 modulo 360 is labelled N; 90 is E, 180 is S and
    270 is W. *)
Theorem cardinalFromHeading_periodic_and_points :
  (forall d : R, cardinalFromHeading d = cardinalFromHeading (d + 360)) /\
  (forall (d : R) (k : Z),
      - (45 / 2) <= d - IZR k * 360 < 45 / 2 ->
      cardinalFromHeading d = Some "N"%string) /\
  cardinalFromHeading 90 = Some "E"%string /\
  cardinalFromHeading 180 = Some "S"%string /\
  cardinalFromHeading 270 = Some "W"%string.
Proof.
  split; [intros d; symmetry; apply cardinal_360_periodic|].
  split; [apply cardinal_north|].
  repeat split.
  - rewrite (cardinal_of_bucket _ 2); [reflexivity | rewrite clamp_fixed; lra].
  - rewrite (cardinal_of_bucket _ 4); [reflexivity | rewrite clamp_fixed; lra].
  - rewrite (cardinal_of_bucket _ 6); [reflexivity | rewrite clamp_fixed; lra].
Qed.

(** ** The two heading conventions *)

Section AxisConventions.

Lemma atan_swap_same_sign p q : 0 < p / q -> atan (q / p) = PI / 2 - atan (p / q).
Proof.
  intros H.
  assert (q <> 0) by (intros ->; unfold Rdiv in H; rewrite Rinv_0 in H; lra).
  assert (p <> 0) by (intros ->; unfold Rdiv in H; lra).
  replace (q / p) with (/ (p / q)) by (field; split; assumption).
  now apply atan_inv.
Qed.

Lemma atan_swap_opp_sign p q : p / q < 0 -> atan (q / p) = - (PI / 2) - atan (p / q).
Proof.
  intros H.
  assert (q <> 0) by (intros ->; unfold Rdiv in H; rewrite Rinv_0 in H; lra).
  assert (p <> 0) by (intros ->; unfold Rdiv in H; lra).
  replace (q / p) with (- / (- (p / q))) by (field; split; assumption).
  rewrite atan_opp, atan_inv by lra. rewrite atan_opp. lra.
Qed.

Lemma div_sign_pos p q : 0 < p * q -> 0 < p / q.
Proof.
  intros H. assert (q <> 0) by (intros ->; lra).
  replace (p / q) with (p * q * (/ q * / q)) by (field; assumption).
  apply Rmult_lt_0_compat; [assumption|].
  assert (/ q <> 0) by now apply Rinv_neq_0_compat. nra.
Qed.

Lemma div_sign_neg p q : p * q < 0 -> p / q < 0.
Proof.
  intros H. assert (q <> 0) by (intros ->; lra).
  replace (p / q) with (- ((- p * q) * (/ q * / q))) by (field; assumption).
  assert (0 < (- p * q) * (/ q * / q)); [|lra].
  apply Rmult_lt_0_compat; [lra|].
  assert (/ q <> 0) by now apply Rinv_neq_0_compat. nra.
Qed.

(** Swapping the arguments as variant 2 does turns the angle back by a
    quarter turn, up to one full turn. *)
Lemma atan2_quarter_turn (x0 y0 : R) :
  x0 <> 0 \/ y0 <> 0 ->
  exists k : Z, JS.atan2 (- x0) y0 = JS.atan2 y0 x0 - PI / 2 + IZR k * (2 * PI).
Proof.
  intros Hxy. pose proof PI_RGT_0 as Hpi.
  destruct (Rtotal_order y0 0) as [Hy|[Hy|Hy]];
    destruct (Rtotal_order x0 0) as [Hx|[Hx|Hx]];
    try (exfalso; lra).
  - (* y < 0, x < 0 *)
    exists 1%Z. unfold JS.atan2.
    destruct (Rlt_dec 0 y0); [lra|]. destruct (Rlt_dec y0 0); [|lra].
    destruct (Rle_dec 0 (- x0)); [|lra].
    destruct (Rlt_dec 0 x0); [lra|]. destruct (Rlt_dec x0 0); [|lra].
    destruct (Rle_dec 0 y0); [lra|].
    replace (- x0 / y0) with (- (x0 / y0)) by (field; lra).
    rewrite atan_opp, (atan_swap_same_sign y0 x0) by (apply div_sign_pos; nra).
    lra.
  - (* y < 0, x = 0 *)
    exists 1%Z. subst x0. unfold JS.atan2.
    destruct (Rlt_dec 0 y0); [lra|]. destruct (Rlt_dec y0 0); [|lra].
    destruct (Rle_dec 0 (- 0)); [|lra].
    destruct (Rlt_dec 0 0); [lra|].
    replace (- 0 / y0) with 0 by (field; lra). rewrite atan_0. lra.
  - (* y < 0, x > 0 *)
    exists 0%Z. unfold JS.atan2.
    destruct (Rlt_dec 0 y0); [lra|]. destruct (Rlt_dec y0 0); [|lra].
    destruct (Rle_dec 0 (- x0)); [lra|].
    destruct (Rlt_dec 0 x0); [|lra].
    replace (- x0 / y0) with (- (x0 / y0)) by (field; lra).
    rewrite atan_opp, (atan_swap_opp_sign y0 x0) by (apply div_sign_neg; nra).
    lra.
  - (* y = 0, x < 0 *)
    exists 0%Z. subst y0. unfold JS.atan2.
    destruct (Rlt_dec 0 0); [lra|].
    destruct (Rlt_dec 0 (- x0)); [|lra].
    destruct (Rlt_dec 0 x0); [lra|]. destruct (Rlt_dec x0 0); [|lra].
    destruct (Rle_dec 0 0); [|lra].
    replace (0 / x0) with 0 by (field; lra). rewrite atan_0. lra.
  - (* y = 0, x > 0 *)
    exists 0%Z. subst y0. unfold JS.atan2.
    destruct (Rlt_dec 0 0); [lra|].
    destruct (Rlt_dec 0 (- x0)); [lra|]. destruct (Rlt_dec (- x0) 0); [|lra].
    destruct (Rlt_dec 0 x0); [|lra].
    replace (0 / x0) with 0 by (field; lra). rewrite atan_0. lra.
  - (* y > 0, x < 0 *)
    exists 0%Z. unfold JS.atan2.
    destruct (Rlt_dec 0 y0); [|lra].
    destruct (Rlt_dec 0 x0); [lra|]. destruct (Rlt_dec x0 0); [|lra].
    destruct (Rle_dec 0 y0); [|lra].
    replace (- x0 / y0) with (- (x0 / y0)) by (field; lra).
    rewrite atan_opp, (atan_swap_opp_sign y0 x0) by (apply div_sign_neg; nra).
    lra.
  - (* y > 0, x = 0 *)
    exists 0%Z. subst x0. unfold JS.atan2.
    destruct (Rlt_dec 0 y0); [|lra].
    destruct (Rlt_dec 0 0); [lra|].
    replace (- 0 / y0) with 0 by (field; lra). rewrite atan_0. lra.
  - (* y > 0, x > 0 *)
    exists 0%Z. unfold JS.atan2.
    destruct (Rlt_dec 0 y0); [|lra].
    destruct (Rlt_dec 0 x0); [|lra].
    replace (- x0 / y0) with (- (x0 / y0)) by (field; lra).
    rewrite atan_opp, (atan_swap_same_sign y0 x0) by (apply div_sign_pos; nra).
    lra.
Qed.

End AxisConventions.





(** ** The sample callback *)

Section SampleCallback.

Lemma delta_rem c h :
  shortestDeltaDegrees (JS.rem c 360) h = shortestDeltaDegrees c h.
Proof. unfold shortestDeltaDegrees. now rewrite clamp_rem. Qed.

(** Variant 1 adds the delta to the value it read, unwrapped. *)
Lemma onSample1_target s d :
  rotationTarget (onSample1 s d)
  = rotationDeg s
    + shortestDeltaDegrees (JS.rem (rotationDeg s) 360) (headingFromMagnetometer1 d).
Proof. rewrite delta_rem. reflexivity. Qed.

(** Variant 2 adds the delta to the value it read after wrapping it. *)
Lemma onSample2_target s d :
  rotationTarget (onSample2 s d)
  = JS.rem (rotationDeg s) 360
    + shortestDeltaDegrees (JS.rem (rotationDeg s) 360) (headingFromMagnetometer2 d).
Proof. reflexivity. Qed.

Lemma delta_at_target c h : shortestDeltaDegrees (c + shortestDeltaDegrees c h) h = 0.
Proof.
  destruct (delta_congr c h) as [k Ek].
  apply (delta_unique _ _ k); lra.
Qed.

Lemma hint1_of_magnitude s d :
  accuracyHint (onSample1 s d)
  = let mag := sqrt (x d * x d + y d * y d + z d * z d) in
    if Rlt_dec mag 15 then Some calibrationMessage
    else if Rlt_dec 80 mag then Some calibrationMessage else None.
Proof. reflexivity. Qed.

Lemma hint2_of_magnitude s d :
  accuracyHint (onSample2 s d)
  = let mag := sqrt (x d * x d + y d * y d + z d * z d) in
    if Rlt_dec mag 25 then Some calibrationMessage
    else if Rlt_dec 65 mag then Some calibrationMessage else None.
Proof.
  unfold onSample2, writeSample. cbv zeta. cbn [accuracyHint].
  replace (x d ^ 2 + y d ^ 2 + z d ^ 2) with (x d * x d + y d * y d + z d * z d) by ring.
  reflexivity.
Qed.

End SampleCallback.

(** C9.  A sample of magnitude 10 sets the calibration hint to the fixed
    message, one of magnitude 40 clears it and one of magnitude 90 sets it
    again, with the thresholds of variant 1 (15 and 80) and with those of
    variant 2 (25 and 65). *)
Theorem calibration_hint_scenarios (s : CompassState)
  (d10 d40 d90 : MagnetometerReading)
  (H10 : sqrt (x d10 * x d10 + y d10 * y d10 + z d10 * z d10) = 10)
  (H40 : sqrt (x d40 * x d40 + y d40 * y d40 + z d40 * z d40) = 40)
  (H90 : sqrt (x d90 * x d90 + y d90 * y d90 + z d90 * z d90) = 90) :
  (accuracyHint (onSample1 s d10) = Some calibrationMessage /\
   accuracyHint (onSample2 s d10) = Some calibrationMessage) /\
  (accuracyHint (onSample1 s d40) = None /\
   accuracyHint (onSample2 s d40) = None) /\
  (accuracyHint (onSample1 s d90) = Some calibrationMessage /\
   accuracyHint (onSample2 s d90) = Some calibrationMessage).
Proof.
  rewrite !hint1_of_magnitude, !hint2_of_magnitude. cbv zeta.
  rewrite H10, H40, H90.
  repeat split;
    repeat match goal with
           | |- context [Rlt_dec ?a ?b] => destruct (Rlt_dec a b); try lra
           end; reflexivity.
Qed.

Lemma sqrt_axis (m : R) : 0 <= m -> sqrt (m * m + 0 * 0 + 0 * 0) = m.
Proof.
  intros Hm. replace (m * m + 0 * 0 + 0 * 0) with (m * m) by ring.
  now apply sqrt_square.
Qed.

Lemma calibration_hint_scenarios_on_axis :
  (accuracyHint (onSample1 mount (mkReading 10 0 0)) = Some calibrationMessage /\
   accuracyHint (onSample2 mount (mkReading 10 0 0)) = Some calibrationMessage) /\
  (accuracyHint (onSample1 mount (mkReading 40 0 0)) = None /\
   accuracyHint (onSample2 mount (mkReading 40 0 0)) = None) /\
  (accuracyHint (onSample1 mount (mkReading 90 0 0)) = Some calibrationMessage /\
   accuracyHint (onSample2 mount (mkReading 90 0 0)) = Some calibrationMessage).
Proof.
  apply calibration_hint_scenarios; simpl; apply sqrt_axis; lra.
Defined.

(** ** Repeating a sample *)

Lemma step_full_frame v s : step v s (AnimationFrame 1) = animate s 1.
Proof.
  unfold step. destruct (Rle_dec 0 1); [|lra]. destruct (Rle_dec 1 1); [reflexivity|lra].
Qed.

Lemma animate_full_value s : rotationDeg (animate s 1) = rotationTarget s.
Proof. simpl. ring. Qed.

Lemma iter_onSample1_value n s d :
  rotationDeg (Nat.iter n (fun st => onSample1 st d) s) = rotationDeg s.
Proof. induction n as [|n IH]; [reflexivity | simpl; exact IH]. Qed.

(** In exact arithmetic, in variant 1, every repetition of a sample shows
    the same heading, and once the rotation value has reached the target of
    the first run, every further run computes a delta of 0 and leaves the
    target where it is. *)
Lemma same_sample_idempotent_exact (s : CompassState) (d : MagnetometerReading) (n : nat) :
  let again := fun st => onSample1 st d in
  let first := onSample1 s d in
  let settled := step V1 first (AnimationFrame 1) in
  heading (Nat.iter (S n) again s) = headingFromMagnetometer1 d /\
  heading (Nat.iter n again settled) = headingFromMagnetometer1 d /\
  rotationDeg settled = rotationTarget first /\
  shortestDeltaDegrees (rotationDeg settled) (headingFromMagnetometer1 d) = 0 /\
  rotationTarget (Nat.iter n again settled) = rotationTarget first.
Proof.
  intros again first settled.
  assert (Hs : settled = animate first 1) by apply step_full_frame.
  assert (Hv : rotationDeg settled = rotationTarget first)
    by (rewrite Hs; apply animate_full_value).
  assert (Hd : shortestDeltaDegrees (rotationDeg settled) (headingFromMagnetometer1 d) = 0).
  { rewrite Hv. unfold first, onSample1, writeSample. cbv zeta. cbn [rotationTarget].
    apply delta_at_target. }
  split; [reflexivity|].
  split; [destruct n; [rewrite Hs|]; reflexivity|].
  split; [exact Hv|]. split; [exact Hd|].
  destruct n as [|n].
  - rewrite Hs. reflexivity.
  - change (Nat.iter (S n) again settled) with (onSample1 (Nat.iter n again settled) d).
    unfold onSample1 at 1, writeSample. cbv zeta. cbn [rotationTarget].
    unfold again. rewrite iter_onSample1_value, Hd, Hv. lra.
Qed.

(** ** Concrete readings *)

Ltac decide_order :=
  repeat match goal with
         | |- context [Rlt_dec ?a ?b] => destruct (Rlt_dec a b); try (exfalso; lra)
         | |- context [Rle_dec ?a ?b] => destruct (Rle_dec a b); try (exfalso; lra)
         end.

(** Variant 1 reads (1, 0, 0) as 90 degrees. *)
Lemma heading1_x_axis : headingFromMagnetometer1 (mkReading 1 0 0) = 90.
Proof.
  unfold headingFromMagnetometer1, JS.atan2. cbn [x y]. decide_order.
  replace (0 / 1) with 0 by field. rewrite atan_0.
  replace (0 * 180 / PI + 90) with 90 by (field; pose proof PI_RGT_0; lra).
  apply clamp_fixed. lra.
Qed.

(** Variant 2 reads (1, 0, 0) as 270 degrees. *)
Lemma heading2_x_axis : headingFromMagnetometer2 (mkReading 1 0 0) = 270.
Proof.
  unfold headingFromMagnetometer2, JS.atan2. cbn [x y]. decide_order.
  replace (- (PI / 2) * 180 / PI) with (-90) by (field; pose proof PI_RGT_0; lra).
  apply (clamp_unique _ (-1)%Z); lra.
Qed.

(** Variant 2 reads (0, 1, 0) as 0 degrees. *)
Lemma heading2_y_axis : headingFromMagnetometer2 (mkReading 0 1 0) = 0.
Proof.
  unfold headingFromMagnetometer2, JS.atan2. cbn [x y]. decide_order.
  replace (- 0 / 1) with 0 by field. rewrite atan_0.
  replace (0 * 180 / PI) with 0 by (field; pose proof PI_RGT_0; lra).
  apply clamp_fixed. lra.
Qed.

(** Variant 2 reads (0, -1, 0) as 180 degrees. *)
Lemma heading2_neg_y_axis : headingFromMagnetometer2 (mkReading 0 (-1) 0) = 180.
Proof.
  unfold headingFromMagnetometer2, JS.atan2. cbn [x y]. decide_order.
  replace (- 0 / -1) with 0 by field. rewrite atan_0.
  replace ((0 + PI) * 180 / PI) with 180 by (field; pose proof PI_RGT_0; lra).
  apply clamp_fixed. lra.
Qed.

(** ** Delivery of events *)

Lemma run_cons v s e tr : run v s (e :: tr) = run v (step v s e) tr.
Proof. reflexivity. Qed.

Lemma step_sample_single v s d id :
  listeners s = [id] -> step v s (SensorSample d) = onSample v s d.
Proof. intros H. unfold step. now rewrite H. Qed.

Lemma step_sample_none v s d :
  listeners s = [] -> step v s (SensorSample d) = s.
Proof. intros H. unfold step. now rewrite H. Qed.

Lemma onSample_listeners v s d : listeners (onSample v s d) = listeners s.
Proof. destruct v; reflexivity. Qed.

Lemma onSample_flags v s d :
  mounted (onSample v s d) = mounted s /\ probing (onSample v s d) = probing s /\
  sub (onSample v s d) = sub s.
Proof. destruct v; repeat split; reflexivity. Qed.

(** One sample followed by the end of its transition, in variant 2. *)
Lemma sample_then_settle2 s d id :
  listeners s = [id] ->
  let s' := step V2 (step V2 s (SensorSample d)) (AnimationFrame 1) in
  listeners s' = [id] /\
  rotationDeg s'
  = JS.rem (rotationDeg s) 360
    + shortestDeltaDegrees (JS.rem (rotationDeg s) 360) (headingFromMagnetometer2 d).
Proof.
  intros H s'. unfold s'.
  rewrite (step_sample_single V2 s d id H), step_full_frame.
  split; [exact H|]. rewrite animate_full_value. reflexivity.
Qed.

(** C3 on variant 2.  After the readings (0, -1, 0) and (0, 1, 0), each
    followed by the end of its transition, the rotation value is -360.
    The reading (1, 0, 0) then sets the target to -90, while the rotation
    value plus the shortest delta is -450: the value is wrapped before the
    delta is added. *)
Theorem variant2_target_wraps :
  let s := run V2 mount
             [ProbeResolved true;
              SensorSample (mkReading 0 (-1) 0); AnimationFrame 1;
              SensorSample (mkReading 0 1 0); AnimationFrame 1] in
  let d := mkReading 1 0 0 in
  rotationDeg s = -360 /\
  rotationTarget (step V2 s (SensorSample d)) = -90 /\
  rotationDeg s
  + shortestDeltaDegrees (JS.rem (rotationDeg s) 360) (headingFromMagnetometer2 d)
  = -450.
Proof.
  intros s d.
  assert (Hs : listeners s = [0%nat] /\ rotationDeg s = -360).
  { unfold s. rewrite run_cons.
    set (s0 := step V2 mount (ProbeResolved true)).
    assert (H0 : listeners s0 = [0%nat] /\ rotationDeg s0 = 0) by (split; reflexivity).
    destruct H0 as [L0 R0].
    rewrite !run_cons.
    destruct (sample_then_settle2 s0 (mkReading 0 (-1) 0) _ L0) as [L1 R1].
    set (s1 := step V2 (step V2 s0 _) _) in *.
    destruct (sample_then_settle2 s1 (mkReading 0 1 0) _ L1) as [L2 R2].
    set (s2 := step V2 (step V2 s1 _) _) in *.
    change (run V2 s2 []) with s2. split; [exact L2|].
    rewrite R2, R1, R0, heading2_neg_y_axis, heading2_y_axis.
    rewrite (rem_unique_nonneg 0 360 0 0) by lra.
    rewrite delta_0_180.
    replace (0 + -180) with (-180) by ring.
    rewrite (rem_unique_neg (-180) 360 0 (-180)) by lra.
    rewrite (delta_unique (-180) 0 (-1) (-180)) by lra. lra. }
  destruct Hs as [L R].
  assert (Hrem : JS.rem (-360) 360 = 0) by (apply (rem_unique_neg _ _ (-1)%Z); lra).
  assert (Hd : shortestDeltaDegrees 0 270 = -90) by (apply (delta_unique _ _ (-1)%Z); lra).
  split; [exact R|]. split.
  - rewrite (step_sample_single V2 s d _ L). cbn [onSample].
    rewrite onSample2_target, R, Hrem. unfold d. rewrite heading2_x_axis, Hd. lra.
  - rewrite R, Hrem. unfold d. rewrite heading2_x_axis, Hd. lra.
Qed.

(** ** Lifecycle of the sensor subscription *)

Section Lifecycle.

Variable v : Variant.

Lemma unavailable_idle_step s e : unavailable_idle s -> unavailable_idle (step v s e).
Proof.
  intros (Ha & Hp & Hs & Hl & Hh & Hh' & Hr & Ht). destruct e as [b|d|t|].
  - unfold step. rewrite Hp. repeat split; assumption.
  - rewrite step_sample_none by assumption. repeat split; assumption.
  - unfold step. destruct (Rle_dec 0 t); [destruct (Rle_dec t 1)|];
      try (repeat split; assumption).
    repeat split; try assumption. cbn [animate rotationDeg]. rewrite Hr, Ht. ring.
  - unfold step. destruct (mounted s); [|repeat split; assumption].
    unfold cleanup. repeat split; cbn; try assumption. now rewrite Hs.
Qed.

Lemma unavailable_idle_run tr s : unavailable_idle s -> unavailable_idle (run v s tr).
Proof.
  revert s. induction tr as [|e tr IH]; intros s H; [exact H|].
  rewrite run_cons. apply IH, unavailable_idle_step, H.
Qed.

Lemma orphaned_step id s e : orphaned id s -> orphaned id (step v s e).
Proof.
  intros (Hm & Hp & Hl). destruct e as [b|d|t|].
  - unfold step. rewrite Hp. repeat split; assumption.
  - rewrite (step_sample_single v s d id Hl).
    destruct (onSample_flags v s d) as (Em & Ep & _).
    repeat split; [now rewrite Em | now rewrite Ep | now rewrite onSample_listeners].
  - unfold step. destruct (Rle_dec 0 t); [destruct (Rle_dec t 1)|];
      repeat split; assumption.
  - unfold step. rewrite Hm. repeat split; assumption.
Qed.

Lemma orphaned_run id tr s : orphaned id s -> orphaned id (run v s tr).
Proof.
  revert s. induction tr as [|e tr IH]; intros s H; [exact H|].
  rewrite run_cons. apply IH, orphaned_step, H.
Qed.

Lemma released_step s e : released s -> released (step v s e).
Proof.
  intros (Hm & Hp & Hl). destruct e as [b|d|t|].
  - unfold step. rewrite Hp. repeat split; assumption.
  - rewrite step_sample_none by assumption. repeat split; assumption.
  - unfold step. destruct (Rle_dec 0 t); [destruct (Rle_dec t 1)|];
      repeat split; assumption.
  - unfold step. rewrite Hm. repeat split; assumption.
Qed.

Lemma released_run tr s : released s -> released (run v s tr).
Proof.
  revert s. induction tr as [|e tr IH]; intros s H; [exact H|].
  rewrite run_cons. apply IH, released_step, H.
Qed.

Lemma subscribed_step id s e :
  subscribed id s -> e <> Unmount -> subscribed id (step v s e).
Proof.
  intros (Hm & Hp & Hs & Hl) He. destruct e as [b|d|t|]; [| | |congruence].
  - unfold step. rewrite Hp. repeat split; assumption.
  - rewrite (step_sample_single v s d id Hl).
    destruct (onSample_flags v s d) as (Em & Ep & Es).
    repeat split; [now rewrite Em | now rewrite Ep | now rewrite Es
                  | now rewrite onSample_listeners].
  - unfold step. destruct (Rle_dec 0 t); [destruct (Rle_dec t 1)|];
      repeat split; assumption.
Qed.

Lemma subscribed_unmount id s : subscribed id s -> released (step v s Unmount).
Proof.
  intros (Hm & Hp & Hs & Hl). unfold step. rewrite Hm.
  unfold cleanup, released. cbn. rewrite Hs, Hl. cbn. rewrite Nat.eqb_refl.
  repeat split; assumption.
Qed.

(** When the probe resolves before the unmount, the cleanup removes the
    listener and none is registered afterwards. *)
Lemma unmount_after_probe_releases (before after : list Event) :
  Forall (fun e => e <> Unmount) before ->
  released (run v mount (ProbeResolved true :: before ++ Unmount :: after)).
Proof.
  intros Hb. rewrite run_cons.
  assert (H0 : subscribed 0 (step v mount (ProbeResolved true)))
    by (repeat split; reflexivity).
  revert H0. generalize (step v mount (ProbeResolved true)) as s.
  induction Hb as [|e before He Hb IH]; intros s Hs.
  - cbn [app]. rewrite run_cons. apply released_run, (subscribed_unmount 0), Hs.
  - cbn [app]. rewrite run_cons. apply IH, subscribed_step; assumption.
Qed.

End Lifecycle.

Section Outcomes.

Variable v : Variant.

Lemma awaiting_probe_step s e :
  awaiting_probe s -> (forall b, e <> ProbeResolved b) -> awaiting_probe (step v s e).
Proof.
  intros (Hp & Ha & Hs & Hl & Hh & Hh' & Hr & Ht) He.
  destruct e as [b|d|t|].
  - now elim (He b).
  - rewrite step_sample_none by assumption. repeat split; assumption.
  - unfold step. destruct (Rle_dec 0 t); [destruct (Rle_dec t 1)|];
      try (repeat split; assumption).
    repeat split; try assumption. cbn [animate rotationDeg]. rewrite Hr, Ht. ring.
  - unfold step. destruct (mounted s); [|repeat split; assumption].
    unfold cleanup. repeat split; cbn; try assumption. now rewrite Hs.
Qed.

Lemma awaiting_probe_run before s :
  awaiting_probe s ->
  Forall (fun e => forall b, e <> ProbeResolved b) before ->
  awaiting_probe (run v s before).
Proof.
  intros Hs Hb. revert s Hs.
  induction Hb as [|e before He Hb IH]; intros s Hs; [exact Hs|].
  rewrite run_cons. apply IH, awaiting_probe_step; assumption.
Qed.

Lemma probe_false_idles s :
  awaiting_probe s -> unavailable_idle (step v s (ProbeResolved false)).
Proof.
  intros (Hp & Ha & Hs & Hl & Hh & Hh' & Hr & Ht).
  unfold step. rewrite Hp. repeat split; assumption.
Qed.

Lemma run_app s tr1 tr2 : run v s (tr1 ++ tr2) = run v (run v s tr1) tr2.
Proof. apply fold_left_app. Qed.

(** C10.  Once the probe has resolved to false, whatever happens next, no
    listener is registered, heading and rotation are 0 and the hint is
    null, so the card shows 0 degrees, N and the unavailable message. *)
Theorem unavailable_shows_zero_north (os : string) (before later : list Event)
  (Hbefore : Forall (fun e => forall b, e <> ProbeResolved b) before) :
  let s := run v mount (before ++ ProbeResolved false :: later) in
  listeners s = [] /\
  heading s = 0 /\ accuracyHint s = None /\
  rotationDeg s = 0 /\ rotationTarget s = 0 /\
  shownHeading s = 0%Z /\
  shownCardinal s = Some "N"%string /\
  cardSubtitle os s = "Magnetometer unavailable on this device"%string.
Proof.
  intros s.
  assert (H : unavailable_idle s).
  { unfold s. rewrite run_app, run_cons.
    apply unavailable_idle_run, probe_false_idles, awaiting_probe_run; [|exact Hbefore].
    repeat split; reflexivity. }
  destruct H as (Ha & Hp & Hs & Hl & Hh & Hh' & Hr & Ht).
  repeat split; try assumption.
  - unfold shownHeading. rewrite Hh. apply round_unique. simpl. lra.
  - unfold shownCardinal. rewrite Hh. apply (cardinal_north 0 0). lra.
  - unfold cardSubtitle. now rewrite Ha.
Qed.

(** C2 on the early unmount.  When the cleanup runs before the probe has
    resolved, the listener added afterwards stays registered through every
    later event, and the next reading still moves the rotation target. *)
Theorem early_unmount_orphans_listener (later : list Event) :
  let s := run v mount [Unmount; ProbeResolved true] in
  mounted s = false /\ sub s = Some 0%nat /\ listeners s = [0%nat] /\
  listeners (run v s later) = [0%nat] /\
  rotationTarget s = 0 /\
  rotationTarget (step v s (SensorSample (mkReading 1 0 0)))
  = match v with V1 => 90 | V2 => -90 end.
Proof.
  intros s.
  assert (Ho : orphaned 0 s) by (repeat split; reflexivity).
  split; [reflexivity|]. split; [reflexivity|]. split; [reflexivity|].
  split; [apply (orphaned_run v 0 later s Ho)|].
  split; [reflexivity|].
  rewrite (step_sample_single v s _ 0%nat) by reflexivity.
  assert (Hv : rotationDeg s = 0) by reflexivity.
  destruct v; cbn [onSample].
  - rewrite onSample1_target, delta_rem, Hv, heading1_x_axis.
    rewrite (delta_unique 0 90 0 90) by lra. lra.
  - rewrite onSample2_target, Hv, heading2_x_axis.
    rewrite (rem_unique_nonneg 0 360 0 0) by lra.
    rewrite (delta_unique 0 270 (-1) (-90)) by lra. lra.
Qed.

End Outcomes.

Lemma unavailable_shows_zero_north_after_unmount :
  let s := run V1 mount ([SensorSample (mkReading 1 0 0)] ++
                          ProbeResolved false
                          :: [SensorSample (mkReading 1 0 0); AnimationFrame 1; Unmount]) in
  listeners s = [] /\
  heading s = 0 /\ accuracyHint s = None /\
  rotationDeg s = 0 /\ rotationTarget s = 0 /\
  shownHeading s = 0%Z /\
  shownCardinal s = Some "N"%string /\
  cardSubtitle "ios" s = "Magnetometer unavailable on this device"%string.
Proof.
  apply (unavailable_shows_zero_north V1 "ios").
  repeat constructor; discriminate.
Defined.

(** * Further properties of the component *)

(** ** Normalisation and the shortest delta *)

(** X1.  Whole turns added to the input do not change the normalised
    angle, and exactly the angles of [0, 360) are returned as they are. *)
Theorem clampHeadingDegrees_turns_and_fixed_points (d : R) (k : Z) :
  clampHeadingDegrees (d + IZR k * 360) = clampHeadingDegrees d /\
  (clampHeadingDegrees d = d <-> 0 <= d < 360).
Proof.
  split; [apply clamp_shift|].
  split; [intros E; rewrite <- E; apply clamp_range | apply clamp_fixed].
Qed.

(** X2.  The shortest delta depends on its two angles modulo 360 only, and
    it is 0 from an angle to itself. *)
Theorem shortestDelta_mod_360 (a b : R) (j k : Z) :
  shortestDeltaDegrees (a + IZR j * 360) (b + IZR k * 360)
  = shortestDeltaDegrees a b /\
  shortestDeltaDegrees a a = 0.
Proof.
  split.
  - unfold shortestDeltaDegrees. now rewrite !clamp_shift.
  - apply (delta_unique _ _ 0%Z); lra.
Qed.

(** ** The cardinal label, bucket by bucket *)

Lemma round_bounds r : IZR (JS.round r) - / 2 <= r < IZR (JS.round r) + / 2.
Proof. unfold JS.round. destruct (base_Int_part (r + / 2)). lra. Qed.

Lemma IZR_between (k lo hi : Z) :
  IZR lo - 1 < IZR k -> IZR k < IZR hi + 1 -> (lo <= k <= hi)%Z.
Proof.
  intros Hl Hu.
  assert (Hl' : IZR (lo - 1) < IZR k) by (rewrite minus_IZR; lra).
  assert (Hu' : IZR k < IZR (hi + 1)) by (rewrite plus_IZR; lra).
  apply lt_IZR in Hl', Hu'. lia.
Qed.

Lemma bucket_of_clamped c : 0 <= c < 360 -> (0 <= JS.round (c / 45) <= 8)%Z.
Proof.
  intros Hc. pose proof (round_bounds (c / 45)) as B.
  apply IZR_between; simpl; lra.
Qed.

Lemma index_headings (k : Z) :
  (0 <= k < 8)%Z -> JS.index headings (Z.rem k 8) = nth_error headings (Z.to_nat k).
Proof.
  intros Hk.
  assert (E : (k = 0 \/ k = 1 \/ k = 2 \/ k = 3 \/ k = 4 \/ k = 5 \/ k = 6 \/ k = 7)%Z) by lia.
  repeat (destruct E as [->|E]; [reflexivity|]). subst k. reflexivity.
Qed.

Lemma cardinal_bucket d (j k : Z) :
  (0 <= k < 8)%Z ->
  IZR k * 45 - 45 / 2 <= d - IZR j * 360 < IZR k * 45 + 45 / 2 ->
  cardinalFromHeading d = nth_error headings (Z.to_nat k).
Proof.
  intros Hk H.
  assert (Hk0 : 0 <= IZR k) by (apply IZR_le; lia).
  destruct (Rle_or_lt 0 (d - IZR j * 360)) as [Hp|Hn].
  - assert (Hk7 : IZR k <= 7) by (apply IZR_le; lia).
    assert (E : clampHeadingDegrees d = d - IZR j * 360)
      by (apply (clamp_unique _ j); lra).
    rewrite (cardinal_of_bucket d k) by (rewrite E; lra).
    now apply index_headings.
  - assert (k = 0%Z).
    { assert (IZR k < 1) by lra. apply (lt_IZR k 1) in H0. lia. }
    subst k. apply (cardinal_north d j). simpl in H. lra.
Qed.

(** X4.  Every real heading gets one of the eight labels: the index never
    leaves the array. *)
Theorem cardinalFromHeading_total (d : R) :
  exists label : string,
    cardinalFromHeading d = Some label /\ In label headings.
Proof.
  pose proof (bucket_of_clamped _ (clamp_range d)) as Hk.
  unfold cardinalFromHeading. cbv zeta.
  set (k := JS.round (clampHeadingDegrees d / 45)) in *.
  assert (E : (k = 0 \/ k = 1 \/ k = 2 \/ k = 3 \/ k = 4 \/ k = 5 \/ k = 6 \/ k = 7 \/ k = 8)%Z)
    by lia.
  repeat (destruct E as [->|E]; [eexists; split; [reflexivity | simpl; tauto]|]).
  rewrite E. eexists; split; [reflexivity | simpl; tauto].
Qed.

(** X5.  Among the headings that are not negative, label number [k] of
    N, NE, E, SE, S, SW, W, NW is given to exactly those from 45k - 22.5,
    included, to 45k + 22.5, excluded, modulo 360. *)
Theorem cardinalFromHeading_bucket_nonneg (d : R) (j k : Z)
  (H0 : 0 <= d)
  (Hk : (0 <= k < 8)%Z)
  (Hd : IZR k * 45 - 45 / 2 <= d - IZR j * 360 < IZR k * 45 + 45 / 2) :
  cardinalFromHeading d = nth_error headings (Z.to_nat k).
Proof. now apply (cardinal_bucket d j k). Qed.

Lemma cardinalFromHeading_bucket_nonneg_south_west :
  cardinalFromHeading 590 = nth_error headings (Z.to_nat 5).
Proof.
  apply (cardinalFromHeading_bucket_nonneg 590 1 5); [lra | lia | simpl; lra].
Defined.

Lemma cardinal_of_rounded (h : R) (Hh : 0 <= h < 360) :
  cardinalFromHeading (IZR (JS.round h)) = cardinalFromHeading h.
Proof.
  pose proof (bucket_of_clamped h Hh) as Hk.
  pose proof (round_bounds (h / 45)) as Bk.
  pose proof (round_bounds h) as Br.
  set (k := JS.round (h / 45)) in *. set (r := JS.round h) in *.
  assert (Hr : (45 * k - 22 <= r <= 45 * k + 22)%Z).
  { apply IZR_between.
    - rewrite minus_IZR, mult_IZR. lra.
    - rewrite plus_IZR, mult_IZR. lra. }
  assert (Hr' : IZR k * 45 - 22 <= IZR r <= IZR k * 45 + 22).
  { destruct Hr as [H1 H2]. apply IZR_le in H1, H2.
    rewrite minus_IZR, mult_IZR in H1. rewrite plus_IZR, mult_IZR in H2. lra. }
  destruct (Z.eq_dec k 8) as [E8|N8].
  - rewrite E8 in *. simpl in Bk, Hr'.
    rewrite (cardinal_bucket (IZR r) 1 0), (cardinal_bucket h 1 0);
      [reflexivity | lia | simpl; lra | lia | simpl; lra].
  - assert (K : (0 <= k < 8)%Z) by lia.
    rewrite (cardinal_bucket (IZR r) 0 k K), (cardinal_bucket h 0 k K);
      [reflexivity | simpl; lra | simpl; lra].
Qed.

(** X6.  Rounding a heading of [0, 360) to a whole number of degrees, as
    variant 2 does before it stores the heading, never changes the label. *)
Theorem cardinal_unchanged_by_rounding (h : R) (Hh : 0 <= h < 360) :
  cardinalFromHeading (IZR (JS.round h)) = cardinalFromHeading h.
Proof. exact (cardinal_of_rounded h Hh). Qed.

Lemma cardinal_unchanged_by_rounding_near_edge :
  cardinalFromHeading (IZR (JS.round (45 / 2))) = cardinalFromHeading (45 / 2).
Proof. apply cardinal_unchanged_by_rounding. lra. Defined.

(** ** The heading of a reading *)

Lemma atan2_scale (k b a : R) : 0 < k -> JS.atan2 (k * b) (k * a) = JS.atan2 b a.
Proof.
  intros Hk. unfold JS.atan2.
  destruct (Rtotal_order a 0) as [Ha|[Ha|Ha]].
  - destruct (Rlt_dec 0 (k * a)); [exfalso; nra|]. destruct (Rlt_dec (k * a) 0); [|exfalso; nra].
    destruct (Rlt_dec 0 a); [lra|]. destruct (Rlt_dec a 0); [|lra].
    replace (k * b / (k * a)) with (b / a) by (field; lra).
    destruct (Rle_dec 0 (k * b)), (Rle_dec 0 b); try reflexivity; exfalso; nra.
  - subst a. rewrite Rmult_0_r.
    destruct (Rlt_dec 0 0); [lra|].
    destruct (Rlt_dec 0 (k * b)), (Rlt_dec 0 b); try (exfalso; nra); [reflexivity|].
    destruct (Rlt_dec (k * b) 0), (Rlt_dec b 0); try (exfalso; nra); reflexivity.
  - destruct (Rlt_dec 0 (k * a)); [|exfalso; nra]. destruct (Rlt_dec 0 a); [|lra].
    replace (k * b / (k * a)) with (b / a) by (field; lra). reflexivity.
Qed.

(** X7.  The heading depends on the direction of the horizontal field
    only: the vertical component and a positive factor on x and y do not
    change it, in either variant. *)
Theorem heading_ignores_strength_and_z (x0 y0 z0 z1 k : R) (Hk : 0 < k) :
  headingFromMagnetometer1 (mkReading (k * x0) (k * y0) z1)
  = headingFromMagnetometer1 (mkReading x0 y0 z0) /\
  headingFromMagnetometer2 (mkReading (k * x0) (k * y0) z1)
  = headingFromMagnetometer2 (mkReading x0 y0 z0).
Proof.
  unfold headingFromMagnetometer1, headingFromMagnetometer2. cbn [x y].
  replace (- (k * x0)) with (k * - x0) by ring.
  now rewrite !atan2_scale.
Qed.

Lemma heading_ignores_strength_and_z_doubled :
  headingFromMagnetometer1 (mkReading (2 * 3) (2 * 4) 7)
  = headingFromMagnetometer1 (mkReading 3 4 0) /\
  headingFromMagnetometer2 (mkReading (2 * 3) (2 * 4) 7)
  = headingFromMagnetometer2 (mkReading 3 4 0).
Proof. apply heading_ignores_strength_and_z. lra. Defined.

Ltac degrees_by k := apply (clamp_unique _ k); [lra | field; lra].

Lemma axis_headings (m z0 : R) (Hm : 0 < m) :
  (headingFromMagnetometer1 (mkReading m 0 z0) = 90 /\
   headingFromMagnetometer1 (mkReading 0 m z0) = 180 /\
   headingFromMagnetometer1 (mkReading (- m) 0 z0) = 270 /\
   headingFromMagnetometer1 (mkReading 0 (- m) z0) = 0) /\
  (headingFromMagnetometer2 (mkReading m 0 z0) = 270 /\
   headingFromMagnetometer2 (mkReading 0 m z0) = 0 /\
   headingFromMagnetometer2 (mkReading (- m) 0 z0) = 90 /\
   headingFromMagnetometer2 (mkReading 0 (- m) z0) = 180).
Proof.
  pose proof PI_RGT_0 as HPI.
  assert (E0 : forall q, q <> 0 -> atan (0 / q) = 0)
    by (intros q Hq; replace (0 / q) with 0 by (field; exact Hq); apply atan_0).
  unfold headingFromMagnetometer1, headingFromMagnetometer2, JS.atan2. cbn [x y].
  rewrite Ropp_involutive, Ropp_0.
  repeat split; decide_order; rewrite ?E0 by lra.
  - degrees_by 0%Z.
  - degrees_by 0%Z.
  - degrees_by 0%Z.
  - degrees_by 0%Z.
  - degrees_by (-1)%Z.
  - degrees_by 0%Z.
  - degrees_by 0%Z.
  - degrees_by 0%Z.
Qed.

(** X8.  A field of strength [m] along one axis reads, in variant 1, 90
    on +x, 180 on +y, 270 on -x and 0 on -y, and in variant 2, 270 on +x,
    0 on +y, 90 on -x and 180 on -y. *)
Theorem heading_on_axes (m z0 : R) (Hm : 0 < m) :
  (headingFromMagnetometer1 (mkReading m 0 z0) = 90 /\
   headingFromMagnetometer1 (mkReading 0 m z0) = 180 /\
   headingFromMagnetometer1 (mkReading (- m) 0 z0) = 270 /\
   headingFromMagnetometer1 (mkReading 0 (- m) z0) = 0) /\
  (headingFromMagnetometer2 (mkReading m 0 z0) = 270 /\
   headingFromMagnetometer2 (mkReading 0 m z0) = 0 /\
   headingFromMagnetometer2 (mkReading (- m) 0 z0) = 90 /\
   headingFromMagnetometer2 (mkReading 0 (- m) z0) = 180).
Proof. exact (axis_headings m z0 Hm). Qed.

Lemma heading_on_axes_at_40 :
  (headingFromMagnetometer1 (mkReading 40 0 0) = 90 /\
   headingFromMagnetometer1 (mkReading 0 40 0) = 180 /\
   headingFromMagnetometer1 (mkReading (- 40) 0 0) = 270 /\
   headingFromMagnetometer1 (mkReading 0 (- 40) 0) = 0) /\
  (headingFromMagnetometer2 (mkReading 40 0 0) = 270 /\
   headingFromMagnetometer2 (mkReading 0 40 0) = 0 /\
   headingFromMagnetometer2 (mkReading (- 40) 0 0) = 90 /\
   headingFromMagnetometer2 (mkReading 0 (- 40) 0) = 180).
Proof. apply heading_on_axes. lra. Defined.

(** ** One run of the listener *)

(** X10.  Whatever value the rotation has and whatever the reading, the
    target that variant 2 sets lies between -540 and 540. *)
Theorem variant2_target_bounded (s : CompassState) (d : MagnetometerReading) :
  -540 <= rotationTarget (onSample2 s d) <= 540.
Proof.
  pose proof (delta_range (JS.rem (rotationDeg s) 360) (headingFromMagnetometer2 d)) as B2.
  pose proof (rem_bounds (rotationDeg s)) as Br.
  rewrite onSample2_target. split; lra.
Qed.

(** X11.  The band of variant 2 lies inside the band of variant 1: for
    the same reading, whenever variant 2 clears the hint variant 1 clears
    it too, and whenever variant 1 sets the hint variant 2 sets it too. *)
Theorem calibration_bands_nested (s : CompassState) (d : MagnetometerReading) :
  (accuracyHint (onSample2 s d) = None -> accuracyHint (onSample1 s d) = None) /\
  (accuracyHint (onSample1 s d) = Some calibrationMessage ->
   accuracyHint (onSample2 s d) = Some calibrationMessage).
Proof.
  rewrite hint1_of_magnitude, hint2_of_magnitude. cbv zeta.
  set (m := sqrt (x d * x d + y d * y d + z d * z d)).
  destruct (Rlt_dec m 15), (Rlt_dec 80 m), (Rlt_dec m 25), (Rlt_dec 65 m);
    split; intros H; try reflexivity; try discriminate H; exfalso; lra.
Qed.

(** ** Invariants of the event loop *)

Section Invariants.

Variable v : Variant.
Variable P : CompassState -> Prop.

Hypothesis P_afterProbe : forall s b, probing s = true -> P s -> P (afterProbe v s b).
Hypothesis P_onSample : forall s d, P s -> P (onSample v s d).
Hypothesis P_animate : forall s t, 0 <= t <= 1 -> P s -> P (animate s t).
Hypothesis P_cleanup : forall s, mounted s = true -> P s -> P (cleanup s).

Lemma deliver_invariant d (l : list nat) s :
  P s -> P (fold_left (fun st _ => onSample v st d) l s).
Proof.
  revert s. induction l as [|i l IH]; intros s H; [exact H|].
  simpl. apply IH, P_onSample, H.
Qed.

Lemma step_invariant s e : P s -> P (step v s e).
Proof.
  intros H. destruct e as [b|d|t|]; unfold step.
  - destruct (probing s) eqn:E; [now apply P_afterProbe | exact H].
  - now apply deliver_invariant.
  - destruct (Rle_dec 0 t); [destruct (Rle_dec t 1)|]; try exact H.
    apply P_animate; [split|]; assumption.
  - destruct (mounted s) eqn:E; [now apply P_cleanup | exact H].
Qed.

Lemma run_invariant tr s : P s -> P (run v s tr).
Proof.
  revert s. induction tr as [|e tr IH]; intros s H; [exact H|].
  rewrite run_cons. apply IH, step_invariant, H.
Qed.

End Invariants.

(** ** The subscription along a run *)

Lemma lifecycle_ok_run v tr : lifecycle_ok v (run v mount tr).
Proof.
  apply run_invariant.
  - intros s b Hp [H|[H|H]]; [|destruct H as (E & _); congruence
                               |destruct H as (E & _); congruence].
    destruct H as (_ & Ha & Hs & Hl & Hn).
    unfold afterProbe. destruct b; cbn [negb].
    + right; right. cbn. rewrite Hn, Hl. repeat split. now left.
    + right; left. cbn. repeat split. exact Hl.
  - intros s d H.
    destruct (onSample_flags v s d) as (Em & Ep & Es).
    unfold lifecycle_ok.
    rewrite onSample_listeners, Em, Ep, Es.
    replace (available (onSample v s d)) with (available s) by (destruct v; reflexivity).
    replace (nextListener (onSample v s d)) with (nextListener s) by (destruct v; reflexivity).
    replace (updateInterval (onSample v s d)) with (updateInterval s) by (destruct v; reflexivity).
    exact H.
  - intros s t _ H. exact H.
  - intros s Hm [H|[H|H]].
    + destruct H as (Hp & Ha & Hs & Hl & Hn). left. unfold cleanup. cbn.
      rewrite Hs. repeat split; assumption.
    + destruct H as (Hp & Ha & Hl). right; left. unfold cleanup. cbn.
      rewrite Hl. repeat split; try assumption. now destruct (sub s).
    + destruct H as (Hp & Ha & Hs & Hu & Hl). right; right. unfold cleanup. cbn.
      rewrite Hs. repeat split; try assumption. right. split; [reflexivity|].
      destruct Hl as [Hl|[Hf _]]; [now rewrite Hl | congruence].
  - left. repeat split; reflexivity.
Qed.

(** X12.  In every state of every run, in either variant: at most one
    listener is registered; the availability is unknown exactly while the
    probe is pending; a listener is registered only after the probe said
    available and the update interval was set; and while the component is
    mounted after an available probe, its listener is registered. *)
Theorem subscription_invariants (v : Variant) (tr : list Event) :
  let s := run v mount tr in
  (List.length (listeners s) <= 1)%nat /\
  (available s = None <-> probing s = true) /\
  (listeners s <> [] ->
   available s = Some true /\ updateInterval s = Some (intervalMs v)) /\
  (mounted s = true -> available s = Some true -> listeners s = [0%nat]).
Proof.
  intros s. pose proof (lifecycle_ok_run v tr) as H. fold s in H.
  destruct H as [H|[H|H]].
  - destruct H as (Hp & Ha & Hs & Hl & Hn). rewrite Hl, Ha, Hp.
    repeat split; try tauto; try discriminate. simpl; lia.
  - destruct H as (Hp & Ha & Hl). rewrite Hl, Ha, Hp.
    repeat split; try tauto; try discriminate. simpl; lia.
  - destruct H as (Hp & Ha & Hs & Hu & Hl). rewrite Ha, Hp, Hu.
    destruct Hl as [Hl|[Hm Hl]]; rewrite Hl.
    + repeat split; try tauto; try discriminate. simpl; lia.
    + rewrite Hm. repeat split; try tauto; try discriminate. simpl; lia.
Qed.

(** ** The rotation target against the heading *)

Lemma heading1_clamped d : clampHeadingDegrees (headingFromMagnetometer1 d)
                           = headingFromMagnetometer1 d.
Proof. unfold headingFromMagnetometer1. apply clamp_idem. Qed.

Lemma heading2_clamped d : clampHeadingDegrees (headingFromMagnetometer2 d)
                           = headingFromMagnetometer2 d.
Proof. unfold headingFromMagnetometer2. apply clamp_idem. Qed.

Lemma target_follows_heading_run v tr : target_follows_heading v (run v mount tr).
Proof.
  apply run_invariant.
  - intros s b _ H. unfold afterProbe. destruct v, (negb b); exact H.
  - intros s d _. destruct v; cbn [onSample target_follows_heading].
    + unfold onSample1, writeSample. cbv zeta. cbn [rotationTarget heading].
      now rewrite clamp_after_delta, heading1_clamped.
    + unfold onSample2, writeSample. cbv zeta. cbn [rotationTarget heading].
      rewrite clamp_after_delta, heading2_clamped.
      pose proof (round_bounds (headingFromMagnetometer2 d)).
      apply Rabs_le. lra.
  - intros s t _ H. destruct v; exact H.
  - intros s _ H. destruct v; exact H.
  - destruct v; cbn [target_follows_heading].
    + apply clamp_fixed. simpl. lra.
    + replace (clampHeadingDegrees (rotationTarget mount)) with 0
        by (symmetry; apply clamp_fixed; simpl; lra).
      simpl. rewrite Rminus_0_r, Rabs_R0. lra.
Qed.

(** ** The heading shown on the card *)

Lemma atan2_sin_cos a : - (PI / 2) < a < PI / 2 -> JS.atan2 (sin a) (cos a) = a.
Proof.
  intros [Hl Hu]. pose proof (cos_gt_0 a Hl Hu) as Hc.
  unfold JS.atan2. destruct (Rlt_dec 0 (cos a)); [|lra].
  change (sin a / cos a) with (tan a). apply atan_tan. split; assumption.
Qed.

(** A reading a little west of north for variant 2: its heading is 359.6. *)
Lemma heading2_just_below_360 :
  headingFromMagnetometer2 (mkReading (- sin (- (PI / 450))) (cos (- (PI / 450))) 0)
  = 1798 / 5.
Proof.
  pose proof PI_RGT_0 as HPI.
  unfold headingFromMagnetometer2. cbn [x y]. rewrite Ropp_involutive.
  rewrite atan2_sin_cos by lra.
  apply (clamp_unique _ (-1)%Z); [lra | field; lra].
Qed.

(** The same for variant 1, a quarter turn further. *)
Lemma heading1_just_below_360 :
  headingFromMagnetometer1 (mkReading (sin (- (PI / 450))) (- cos (- (PI / 450))) 0)
  = 1798 / 5.
Proof.
  pose proof PI_RGT_0 as HPI.
  unfold headingFromMagnetometer1. cbn [x y].
  assert (Hc : 0 < cos (- (PI / 450))) by (apply cos_gt_0; lra).
  destruct (atan2_quarter_turn (cos (- (PI / 450))) (sin (- (PI / 450)))
              ltac:(left; lra)) as [k Ek].
  rewrite Ek, atan2_sin_cos by lra.
  apply (clamp_unique _ (k - 1)%Z); [lra | rewrite minus_IZR; field; lra].
Qed.

Lemma heading_in_range_run v tr : 0 <= heading (run v mount tr) <= 360.
Proof.
  apply (run_invariant v (fun s => 0 <= heading s <= 360)).
  - intros s b _ H. unfold afterProbe. destruct (negb b); exact H.
  - intros s d _. destruct v; cbn [onSample].
    + unfold onSample1, writeSample. cbv zeta. cbn [heading].
      unfold headingFromMagnetometer1. cbv zeta.
      match goal with |- _ <= clampHeadingDegrees ?e <= _ =>
        pose proof (clamp_range e) end. lra.
    + unfold onSample2, writeSample. cbv zeta. cbn [heading].
      pose proof (round_bounds (headingFromMagnetometer2 d)) as B.
      assert (Hh : 0 <= headingFromMagnetometer2 d < 360)
        by (unfold headingFromMagnetometer2; apply clamp_range).
      assert (K : (0 <= JS.round (headingFromMagnetometer2 d) <= 360)%Z)
        by (apply IZR_between; simpl; lra).
      destruct K as [K1 K2]. apply IZR_le in K1, K2. simpl in K1. lra.
  - intros s t _ H. exact H.
  - intros s _ H. exact H.
  - simpl. lra.
Qed.

(** X14.  The card shows a whole number of degrees from 0 to 360, in every
    state of every run; 360 itself is shown, in either variant, for a
    reading whose heading is at least 359.5. *)
Theorem shown_heading_up_to_360 :
  (forall (v : Variant) (tr : list Event),
      (0 <= shownHeading (run v mount tr) <= 360)%Z) /\
  (forall v : Variant, exists d : MagnetometerReading,
      shownHeading (run v mount [ProbeResolved true; SensorSample d]) = 360%Z).
Proof.
  split.
  - intros v tr. pose proof (heading_in_range_run v tr) as H.
    pose proof (round_bounds (heading (run v mount tr))) as B.
    unfold shownHeading. apply IZR_between; simpl; lra.
  - intros [|].
    + exists (mkReading (sin (- (PI / 450))) (- cos (- (PI / 450))) 0).
      rewrite !run_cons. change (run V1 ?s []) with s.
      rewrite (step_sample_single V1 _ _ 0%nat) by reflexivity.
      unfold shownHeading. cbn [onSample].
      unfold onSample1, writeSample. cbv zeta. cbn [heading].
      rewrite heading1_just_below_360. apply round_unique. simpl. lra.
    + exists (mkReading (- sin (- (PI / 450))) (cos (- (PI / 450))) 0).
      rewrite !run_cons. change (run V2 ?s []) with s.
      rewrite (step_sample_single V2 _ _ 0%nat) by reflexivity.
      unfold shownHeading. cbn [onSample].
      unfold onSample2, writeSample. cbv zeta. cbn [heading].
      rewrite heading2_just_below_360.
      rewrite (round_unique (1798 / 5) 360) by (simpl; lra).
      apply round_unique. simpl. lra.
Qed.

(** ** After the cleanup *)

Lemma released_frozen v s e :
  released s ->
  heading (step v s e) = heading s /\
  accuracyHint (step v s e) = accuracyHint s /\
  rotationTarget (step v s e) = rotationTarget s.
Proof.
  intros (Hm & Hp & Hl). destruct e as [b|d|t|].
  - unfold step. rewrite Hp. repeat split.
  - rewrite step_sample_none by assumption. repeat split.
  - unfold step. destruct (Rle_dec 0 t); [destruct (Rle_dec t 1)|]; repeat split.
  - unfold step. rewrite Hm. repeat split.
Qed.

Lemma released_frozen_run v tr s :
  released s ->
  released (run v s tr) /\
  heading (run v s tr) = heading s /\
  accuracyHint (run v s tr) = accuracyHint s /\
  rotationTarget (run v s tr) = rotationTarget s.
Proof.
  revert s. induction tr as [|e tr IH]; intros s H; [repeat split; apply H|].
  rewrite run_cons.
  destruct (released_frozen v s e H) as (E1 & E2 & E3).
  destruct (IH _ (released_step v s e H)) as (R & F1 & F2 & F3).
  repeat split; try apply R; congruence.
Qed.

(** X15.  When the probe has resolved before the component is unmounted,
    the cleanup removes the listener: afterwards none is registered, and
    no later event changes the heading, the hint or the rotation target. *)
Theorem unmount_after_probe_freezes (v : Variant) (before later : list Event)
  (Hbefore : Forall (fun e => e <> Unmount) before) :
  let unmounted := run v mount (ProbeResolved true :: before ++ [Unmount]) in
  let s := run v unmounted later in
  listeners unmounted = [] /\ listeners s = [] /\
  heading s = heading unmounted /\
  accuracyHint s = accuracyHint unmounted /\
  rotationTarget s = rotationTarget unmounted.
Proof.
  intros unmounted s.
  assert (R : released unmounted)
    by (apply (unmount_after_probe_releases v before [] Hbefore)).
  destruct (released_frozen_run v later unmounted R) as (R' & F1 & F2 & F3).
  split; [apply R|]. split; [apply R'|]. repeat split; assumption.
Qed.

Lemma unmount_after_probe_freezes_sampled :
  let unmounted :=
    run V1 mount (ProbeResolved true
                  :: [SensorSample (mkReading 1 0 0); AnimationFrame 1] ++ [Unmount]) in
  let s := run V1 unmounted [SensorSample (mkReading 0 1 0); AnimationFrame 1] in
  listeners unmounted = [] /\ listeners s = [] /\
  heading s = heading unmounted /\
  accuracyHint s = accuracyHint unmounted /\
  rotationTarget s = rotationTarget unmounted.
Proof.
  apply (unmount_after_probe_freezes V1).
  repeat constructor; discriminate.
Defined.

(** ** The subtitle of the card *)

Lemma hint_known_run v tr :
  accuracyHint (run v mount tr) = None \/
  accuracyHint (run v mount tr) = Some calibrationMessage.
Proof.
  apply (run_invariant v
           (fun s => accuracyHint s = None \/ accuracyHint s = Some calibrationMessage)).
  - intros s b _ H. unfold afterProbe. destruct (negb b); exact H.
  - intros s d _. destruct v; cbn [onSample].
    + rewrite hint1_of_magnitude. cbv zeta.
      repeat match goal with |- context [Rlt_dec ?a ?b] => destruct (Rlt_dec a b) end; tauto.
    + rewrite hint2_of_magnitude. cbv zeta.
      repeat match goal with |- context [Rlt_dec ?a ?b] => destruct (Rlt_dec a b) end; tauto.
  - intros s t _ H. exact H.
  - intros s _ H. exact H.
  - now left.
Qed.

(** X16.  In every state of every run the subtitle is one of four fixed
    texts; it is the unavailable message exactly when the probe has
    answered no; and on the web the calibration hint is never shown. *)
Theorem subtitle_cases (v : Variant) (tr : list Event) (os : string) :
  let s := run v mount tr in
  In (cardSubtitle os s)
     ["Magnetometer unavailable on this device"; "Compass works best on a real device";
      calibrationMessage; "Align the top edge with your direction"]%string /\
  (cardSubtitle os s = "Magnetometer unavailable on this device"%string
   <-> available s = Some false) /\
  (os = "web"%string -> cardSubtitle os s <> calibrationMessage).
Proof.
  intros s. pose proof (hint_known_run v tr) as Hh. fold s in Hh.
  unfold cardSubtitle, calibrationMessage in *.
  destruct (available s) as [[|]|]; destruct (String.eqb os "web") eqn:Eos;
    destruct Hh as [Hh|Hh]; rewrite ?Hh;
    (split; [simpl; tauto|]);
    (split; [split; intros H; try reflexivity; try discriminate H|]);
    intros Hw; try discriminate;
    subst os; vm_compute in Eos; discriminate Eos.
Qed.

(** ** Before the probe resolves *)

(** X17.  Until the probe resolves nothing changes, whatever else happens:
    no listener is registered, the availability is unknown, heading and
    rotation are 0, and off the web the subtitle is the alignment
    instruction. *)
Theorem nothing_moves_before_probe (v : Variant) (os : string) (tr : list Event)
  (Htr : Forall (fun e => forall b, e <> ProbeResolved b) tr)
  (Hos : os <> "web"%string) :
  let s := run v mount tr in
  listeners s = [] /\ available s = None /\
  heading s = 0 /\ accuracyHint s = None /\
  rotationDeg s = 0 /\ rotationTarget s = 0 /\
  shownHeading s = 0%Z /\ shownCardinal s = Some "N"%string /\
  cardSubtitle os s = "Align the top edge with your direction"%string.
Proof.
  intros s.
  assert (H : awaiting_probe s).
  { apply awaiting_probe_run; [repeat split; reflexivity | exact Htr]. }
  destruct H as (Hp & Ha & Hs & Hl & Hh & Hh' & Hr & Ht).
  repeat split; try assumption.
  - unfold shownHeading. rewrite Hh. apply round_unique. simpl. lra.
  - unfold shownCardinal. rewrite Hh. apply (cardinal_north 0 0). lra.
  - unfold cardSubtitle. rewrite Ha, Hh'.
    apply String.eqb_neq in Hos. now rewrite Hos.
Qed.

Lemma nothing_moves_before_probe_on_ios :
  let s := run V2 mount [SensorSample (mkReading 1 0 0); AnimationFrame 1; Unmount] in
  listeners s = [] /\ available s = None /\
  heading s = 0 /\ accuracyHint s = None /\
  rotationDeg s = 0 /\ rotationTarget s = 0 /\
  shownHeading s = 0%Z /\ shownCardinal s = Some "N"%string /\
  cardSubtitle "ios" s = "Align the top edge with your direction"%string.
Proof.
  apply (nothing_moves_before_probe V2 "ios").
  - repeat constructor; discriminate.
  - discriminate.
Defined.

(** ** Turning round and round in variant 1 *)

Lemma heading1_quarter i :
  headingFromMagnetometer1 (quarterReading i) = clampHeadingDegrees (90 * INR (S i)).
Proof.
  destruct (axis_headings 1 0 Rlt_0_1) as ((Hx & Hy & Hnx & Hny) & _).
  pose proof (Nat.div_mod_eq i 4) as Hdm.
  pose proof (Nat.mod_upper_bound i 4 ltac:(discriminate)) as Hr.
  unfold quarterReading.
  remember (i / 4)%nat as q eqn:Hq. remember (i mod 4)%nat as r eqn:Hrem.
  assert (Ei : INR i = 4 * INR q + INR r).
  { rewrite Hdm at 1. rewrite plus_INR, mult_INR. simpl. lra. }
  assert (Eq : INR q = IZR (Z.of_nat q)) by apply INR_IZR_INZ.
  symmetry. rewrite S_INR.
  destruct r as [|[|[|[|r]]]]; [| | | |lia]; simpl in Ei.
  - rewrite Hx. apply (clamp_unique _ (Z.of_nat q)); lra.
  - rewrite Hy. apply (clamp_unique _ (Z.of_nat q)); lra.
  - change (mkReading (-1) 0 0) with (mkReading (- (1)) 0 0). rewrite Hnx.
    apply (clamp_unique _ (Z.of_nat q)); lra.
  - change (mkReading 0 (-1) 0) with (mkReading 0 (- (1)) 0). rewrite Hny.
    apply (clamp_unique _ (Z.of_nat q + 1)%Z); [lra | rewrite plus_IZR; lra].
Qed.

Lemma quarter_step i s :
  listeners s = [0%nat] -> rotationDeg s = 90 * INR i ->
  let s' := step V1 (step V1 s (SensorSample (quarterReading i))) (AnimationFrame 1) in
  listeners s' = [0%nat] /\
  rotationDeg s' = 90 * INR (S i) /\ rotationTarget s' = 90 * INR (S i).
Proof.
  intros Hl Hv s'. unfold s'.
  rewrite (step_sample_single V1 s _ 0%nat Hl), step_full_frame. cbn [onSample].
  assert (Ht : rotationTarget (onSample1 s (quarterReading i)) = 90 * INR (S i)).
  { unfold onSample1, writeSample. cbv zeta. cbn [rotationTarget].
    rewrite heading1_quarter, Hv.
    assert (E : shortestDeltaDegrees (90 * INR i) (clampHeadingDegrees (90 * INR (S i))) = 90).
    { unfold shortestDeltaDegrees. rewrite clamp_idem.
      fold (shortestDeltaDegrees (90 * INR i) (90 * INR (S i))).
      apply (delta_unique _ _ 0%Z); [lra | rewrite S_INR; lra]. }
    rewrite E, S_INR. lra. }
  split; [exact Hl|]. split; [rewrite animate_full_value; exact Ht | exact Ht].
Qed.

Lemma quarter_turns_run n : forall i s,
  listeners s = [0%nat] -> rotationDeg s = 90 * INR i -> rotationTarget s = 90 * INR i ->
  listeners (run V1 s (quarterTurns i n)) = [0%nat] /\
  rotationDeg (run V1 s (quarterTurns i n)) = 90 * INR (i + n) /\
  rotationTarget (run V1 s (quarterTurns i n)) = 90 * INR (i + n).
Proof.
  induction n as [|n IH]; intros i s Hl Hv Ht.
  - rewrite Nat.add_0_r. repeat split; assumption.
  - cbn [quarterTurns]. rewrite !run_cons.
    destruct (quarter_step i s Hl Hv) as (Hl' & Hv' & Ht').
    rewrite <- Nat.add_succ_comm. now apply IH.
Qed.

(** X20.  In variant 1 the rotation is not kept within one turn: after [n]
    readings a quarter turn apart, each animated to its end, the rotation
    value and its target are 90 n degrees, and the heading shown is 90 n
    modulo 360. *)
Theorem variant1_rotation_accumulates (n : nat) :
  let s := run V1 mount (ProbeResolved true :: quarterTurns 0 n) in
  rotationDeg s = 90 * INR n /\ rotationTarget s = 90 * INR n /\
  heading s = clampHeadingDegrees (90 * INR n).
Proof.
  intros s.
  assert (H : rotationDeg s = 90 * INR n /\ rotationTarget s = 90 * INR n).
  { unfold s. rewrite run_cons.
    destruct (quarter_turns_run n 0 (step V1 mount (ProbeResolved true)))
      as (_ & Hv & Ht); try reflexivity; try (simpl; lra).
    split; assumption. }
  destruct H as [Hv Ht]. split; [exact Hv|]. split; [exact Ht|].
  rewrite <- Ht. symmetry. apply (target_follows_heading_run V1).
Qed.

(** ** More on the listener of variant 2 *)

Lemma rem_identity (a : R) : JS.rem a 360 = a <-> -360 < a < 360.
Proof.
  split; intros H.
  - rewrite <- H. apply rem_bounds.
  - destruct (Rle_or_lt 0 a).
    + apply (rem_unique_nonneg _ _ 0%Z); lra.
    + apply (rem_unique_neg _ _ 0%Z); lra.
Qed.

(** X21.  The target of variant 2 is the value read plus the shortest
    delta exactly when the value read is strictly between -360 and 360;
    outside, whole turns of the value are dropped. *)
Theorem variant2_target_agrees_within_a_turn (s : CompassState) (d : MagnetometerReading) :
  let delta := shortestDeltaDegrees (JS.rem (rotationDeg s) 360)
                 (headingFromMagnetometer2 d) in
  (rotationTarget (onSample2 s d) = rotationDeg s + delta
   <-> -360 < rotationDeg s < 360) /\
  rotationTarget (onSample2 s d)
  = rotationDeg s + delta - 360 * IZR (JS.trunc (rotationDeg s / 360)).
Proof.
  intros delta. rewrite onSample2_target. fold delta.
  pose proof (rem_identity (rotationDeg s)) as [H1 H2].
  split; [split; intros H|].
  - apply H1. lra.
  - rewrite (H2 H). reflexivity.
  - unfold JS.rem. ring.
Qed.

(** X22.  Variant 2 stores the rounded heading, and the card shows the
    number and the label that the unrounded heading would give. *)
Theorem variant2_shows_unrounded_heading (s : CompassState) (d : MagnetometerReading) :
  shownHeading (onSample2 s d) = JS.round (headingFromMagnetometer2 d) /\
  shownCardinal (onSample2 s d) = cardinalFromHeading (headingFromMagnetometer2 d).
Proof.
  unfold shownHeading, shownCardinal, onSample2, writeSample. cbv zeta. cbn [heading].
  split.
  - apply round_unique. lra.
  - apply cardinal_of_rounded. unfold headingFromMagnetometer2. apply clamp_range.
Qed.

(** * Rounding: normalisation and the shortest delta on doubles *)

Section DoubleFacts.
Local Open Scope Q_scope.

(** ** The error of one rounding *)

Lemma nearest_even_err q :
  - (1 # 2) <= inject_Z (Double.nearest_even q) - q <= 1 # 2.
Proof.
  unfold Double.nearest_even. cbv zeta.
  pose proof (Qfloor_le q) as Hl. pose proof (Qlt_floor q) as Hu.
  rewrite inject_Z_plus in Hu. change (inject_Z 1) with 1 in Hu.
  destruct (Qcompare_spec (q - inject_Z (Qfloor q)) (1 # 2)) as [E|E|E].
  - destruct (Z.even (Qfloor q)); rewrite ?inject_Z_plus;
      change (inject_Z 1) with 1; split; Lqa.lra.
  - split; Lqa.lra.
  - rewrite inject_Z_plus. change (inject_Z 1) with 1. split; Lqa.lra.
Qed.

Lemma ilog2_upper q k :
  (1 <= k)%Z -> Qabs q < 2 ^ k -> (Double.ilog2 q <= k - 1)%Z.
Proof.
  intros Hk Hq. unfold Double.ilog2. cbv zeta.
  destruct (Qle_bool 1 (Qabs q)) eqn:E.
  - apply Qle_bool_iff in E.
    assert (H1 : (1 <= Qfloor (Qabs q))%Z).
    { change 1%Z with (Qfloor 1). now apply Qfloor_resp_le. }
    assert (H2 : (Qfloor (Qabs q) < 2 ^ k)%Z).
    { rewrite Zlt_Qlt. rewrite Zpower_Qpower by lia.
      eapply Qle_lt_trans; [apply Qfloor_le | exact Hq]. }
    apply Z.log2_lt_pow2 in H2; lia.
  - pose proof (Z.log2_up_nonneg (Qceiling (/ Qabs q))). lia.
Qed.

(** A value below 2^k in magnitude is moved by at most half a unit in the
    last place of its binade, 2^(k-54). *)
Lemma round_err q k :
  (1 <= k)%Z -> Qabs q < 2 ^ k -> Qabs (Double.round q - q) <= 2 ^ (k - 54).
Proof.
  intros Hk Hq. unfold Double.round.
  destruct (Qeq_bool q 0) eqn:E.
  - apply Qeq_bool_iff in E. rewrite E.
    setoid_replace (0 - 0) with 0 by ring. simpl Qabs.
    apply Qpower_0_le. Lqa.lra.
  - cbv zeta. rewrite Qred_correct.
    set (e := Double.ulp_exponent q).
    assert (He : (e <= k - 53)%Z).
    { unfold e, Double.ulp_exponent. pose proof (ilog2_upper q k Hk Hq). lia. }
    assert (Hp : 0 < 2 ^ e) by (apply Qpower_0_lt; Lqa.lra).
    pose proof (nearest_even_err (q / 2 ^ e)) as [Hl Hu].
    set (m := inject_Z (Double.nearest_even (q / 2 ^ e))) in *.
    assert (Hs : q == q / 2 ^ e * 2 ^ e) by (field; Lqa.lra).
    set (s := q / 2 ^ e) in *.
    assert (Hb : 2 ^ e <= 2 ^ (k - 53)) by (apply Qpower_le_compat_l; [exact He | Lqa.lra]).
    assert (Hh : 2 ^ (k - 53) == 2 * 2 ^ (k - 54)).
    { replace (k - 53)%Z with (1 + (k - 54))%Z by lia.
      rewrite Qpower_plus by Lqa.lra. reflexivity. }
    apply Qabs_Qle_condition. split; Lqa.nra.
Qed.

Ltac power_literal H :=
  match type of H with
  | context [Qpower 2 ?k] =>
      let v := eval vm_compute in (Qpower 2 k) in
      change (Qpower 2 k) with v in H
  end.

(** Below 1024 a rounding moves by at most 2^-44. *)
Lemma round_near q :
  Qabs q < 1024 -> - (1 # 17592186044416) <= Double.round q - q <= 1 # 17592186044416.
Proof.
  intros H. pose proof (round_err q 10 ltac:(lia) H) as E.
  apply Qabs_Qle_condition in E. power_literal E. exact E.
Qed.

(** Below 2^21 a rounding moves by at most 2^-33. *)
Lemma round_near_large q :
  Qabs q < 2097152 -> - (1 # 8589934592) <= Double.round q - q <= 1 # 8589934592.
Proof.
  intros H. pose proof (round_err q 21 ltac:(lia) H) as E.
  apply Qabs_Qle_condition in E. power_literal E. exact E.
Qed.

Lemma Qabs_below q c : - c < q -> q < c -> Qabs q < c.
Proof. intros H1 H2. apply Qabs_case; intros; Lqa.lra. Qed.

(** ** The remainder, the normalisation and the delta, up to rounding *)

Lemma double_rem_spec a :
  exists j : Z, a == 360 * inject_Z j + Double.rem a 360 /\
                - (360) < Double.rem a 360 < 360 /\
                (0 <= a -> 0 <= Double.rem a 360).
Proof.
  unfold Double.rem. exists (Double.trunc (a / 360)).
  rewrite Qred_correct. split; [ring|].
  assert (Ht : a == 360 * (a / 360)) by (field).
  set (t := a / 360) in *. unfold Double.trunc.
  destruct (Qlt_le_dec t 0) as [Hn|Hp].
  - pose proof (Qle_ceiling t) as H1. pose proof (Qceiling_lt t) as H2.
    unfold Zminus in H2. rewrite inject_Z_plus in H2.
    change (inject_Z (Z.opp 1)) with (- (1)) in H2.
    split; [split|intros]; Lqa.lra.
  - pose proof (Qfloor_le t) as H1. pose proof (Qlt_floor t) as H2.
    rewrite inject_Z_plus in H2. change (inject_Z 1) with 1 in H2.
    split; [split|intros]; Lqa.lra.
Qed.

(** The normalised angle is the input minus whole turns, up to 2^-44. *)
Lemma double_clamp_spec d :
  exists j : Z,
    - (1 # 17592186044416) <= Double.clampHeadingDegrees d - (d - 360 * inject_Z j)
                           <= 1 # 17592186044416 /\
    - (1) <= Double.clampHeadingDegrees d <= 361.
Proof.
  destruct (double_rem_spec d) as (j & E & B & _).
  unfold Double.clampHeadingDegrees. cbv zeta.
  set (v := Double.rem d 360) in *.
  destruct (Qlt_le_dec v 0) as [Hn|Hp].
  - exists (j - 1)%Z. unfold Double.add.
    pose proof (round_near (v + 360) ltac:(apply Qabs_below; Lqa.lra)) as R.
    unfold Zminus. rewrite inject_Z_plus. change (inject_Z (Z.opp 1)) with (- (1)).
    split; split; Lqa.lra.
  - exists j. split; split; Lqa.lra.
Qed.

(** The delta is the difference of the normalised angles plus whole turns,
    up to 3 * 2^-44, and at most 181 in magnitude. *)
Lemma double_delta_spec a b :
  exists j : Z,
    - (3 # 17592186044416)
    <= Double.shortestDeltaDegrees a b
       - (Double.clampHeadingDegrees b - Double.clampHeadingDegrees a + 360 * inject_Z j)
    <= 3 # 17592186044416 /\
    - (181) <= Double.shortestDeltaDegrees a b <= 181.
Proof.
  destruct (double_clamp_spec a) as (ja & _ & Ba).
  destruct (double_clamp_spec b) as (jb & _ & Bb).
  unfold Double.shortestDeltaDegrees, Double.sub, Double.add. cbv zeta.
  set (A := Double.clampHeadingDegrees a) in *.
  set (B := Double.clampHeadingDegrees b) in *.
  pose proof (round_near (B - A) ltac:(apply Qabs_below; Lqa.lra)) as R1.
  set (t1 := Double.round (B - A)) in *.
  pose proof (round_near (t1 + 540) ltac:(apply Qabs_below; Lqa.lra)) as R2.
  set (t2 := Double.round (t1 + 540)) in *.
  destruct (double_rem_spec t2) as (j & E & Bm & Pm).
  assert (Hm : 0 <= Double.rem t2 360) by (apply Pm; Lqa.lra).
  set (m := Double.rem t2 360) in *.
  pose proof (round_near (m - 180) ltac:(apply Qabs_below; Lqa.lra)) as R3.
  exists (1 - j)%Z. unfold Zminus. rewrite inject_Z_plus, inject_Z_opp.
  change (inject_Z 1) with 1.
  split; split; Lqa.lra.
Qed.

Lemma small_multiple_is_zero (k : Z) (e : Q) :
  - (181) <= 360 * inject_Z k + e <= 181 -> - (1) <= e <= 1 -> k = 0%Z.
Proof.
  intros B E.
  assert (H1 : inject_Z (-1) < inject_Z k) by (change (inject_Z (-1)) with (- (1)); Lqa.lra).
  assert (H2 : inject_Z k < inject_Z 1) by (change (inject_Z 1) with 1; Lqa.lra).
  rewrite <- Zlt_Qlt in H1, H2. lia.
Qed.

(** ** Normalising a tiny negative angle *)

(** C7 on doubles.  -2^-70 is a double; for it [v + 360] rounds to 360, so
    that the code returns 360, outside [0, 360), where the formula of the
    specification, [((d % 360) + 360) % 360], gives 0. *)
Theorem clamp_of_tiny_negative_is_360 :
  Double.round (- (1 # 1180591620717411303424)) == - (1 # 1180591620717411303424) /\
  Double.clampHeadingDegrees (- (1 # 1180591620717411303424)) == 360 /\
  Double.normalizeDegrees_spec (- (1 # 1180591620717411303424)) == 0.
Proof. repeat split; apply Qeq_bool_iff; vm_compute; reflexivity. Qed.

(** ** The two heading conventions *)


(** ** Adding the delta to the start *)

(** C6, as stated, fails on doubles: from 0.1 to 0.3 the normalised sum is
    not the normalised target. *)
Lemma delta_misses_target_on_doubles :
  let a := Double.round (1 # 10) in
  let b := Double.round (3 # 10) in
  ~ (Double.clampHeadingDegrees (Double.add a (Double.shortestDeltaDegrees a b))
     == Double.clampHeadingDegrees b).
Proof.
  intros a b H. apply Qeq_bool_iff in H. vm_compute in H. discriminate H.
Qed.

(** C6, amended.  For a start angle of at most 2^20 in magnitude, the
    normalised sum of the start and the delta is the normalised target up to
    whole turns and a rounding error of at most 2^-32. *)
Theorem delta_reaches_target_up_to_rounding (a b : Q) (Ha : Qabs a <= 1048576) :
  exists k : Z,
    Qabs (Double.clampHeadingDegrees (Double.add a (Double.shortestDeltaDegrees a b))
          - Double.clampHeadingDegrees b - 360 * inject_Z k)
    <= 1 # 4294967296.
Proof.
  destruct (double_delta_spec a b) as (j & E & Bd).
  destruct (double_clamp_spec a) as (ja & Ea & _).
  set (delta := Double.shortestDeltaDegrees a b) in *.
  assert (Ha' : - (1048576) <= a <= 1048576)
    by (apply Qabs_Qle_condition; exact Ha).
  unfold Double.add.
  pose proof (round_near_large (a + delta) ltac:(apply Qabs_below; Lqa.lra)) as R4.
  set (s := Double.round (a + delta)) in *.
  destruct (double_clamp_spec s) as (js & Es & _).
  exists (ja + j - js)%Z. unfold Zminus.
  rewrite !inject_Z_plus, inject_Z_opp.
  apply Qabs_Qle_condition. split; Lqa.lra.
Qed.

Lemma delta_reaches_target_up_to_rounding_tenths :
  exists k : Z,
    Qabs (Double.clampHeadingDegrees
            (Double.add (Double.round (1 # 10))
               (Double.shortestDeltaDegrees (Double.round (1 # 10)) (Double.round (3 # 10))))
          - Double.clampHeadingDegrees (Double.round (3 # 10)) - 360 * inject_Z k)
    <= 1 # 4294967296.
Proof.
  apply delta_reaches_target_up_to_rounding.
  apply Qle_bool_iff. vm_compute. reflexivity.
Defined.

(** ** Repeating a heading *)

(** C8, as stated, fails on doubles: at rotation 810, with the heading
    41.63353933657019 of the reading (8, -9, 0), the first run sets the
    target 761.6335393365703; the run that repeats the heading from there
    computes a delta that is not 0 and moves the target. *)
Lemma repeated_heading_moves_target_on_doubles :
  let h := 5859399757571637 # 140737488355328 in
  let target := Double.nextRotation 810 h in
  Double.round h == h /\
  ~ (Double.shortestDeltaDegrees target h == 0) /\
  ~ (Double.nextRotation target h == target).
Proof.
  intros h target. split; [apply Qeq_bool_iff; vm_compute; reflexivity|].
  split; intros H; apply Qeq_bool_iff in H; vm_compute in H; discriminate H.
Qed.

(** C8, amended.  Every repetition of a reading stores the same heading;
    and in variant 1, when the rotation value, of at most 2^20 in magnitude
    before a run, has reached the target of that run, the run that repeats
    the heading computes a delta of at most 2^-32 in magnitude and moves
    the target by at most 2^-31. *)
Theorem repeated_sample_settles_up_to_rounding
  (s : CompassState) (d : MagnetometerReading) (n : nat)
  (value h : Q) (Hv : Qabs value <= 1048576) :
  heading (Nat.iter (S n) (fun st => onSample1 st d) s) = headingFromMagnetometer1 d /\
  let target := Double.nextRotation value h in
  Qabs (Double.shortestDeltaDegrees target h) <= 1 # 4294967296 /\
  Qabs (Double.nextRotation target h - target) <= 1 # 2147483648.
Proof.
  split; [reflexivity|]. intros target.
  assert (Hv' : - (1048576) <= value <= 1048576)
    by (apply Qabs_Qle_condition; exact Hv).
  destruct (double_delta_spec value h) as (j0 & E0 & B0).
  destruct (double_clamp_spec value) as (ja & Ea & _).
  assert (Ht : - (1 # 8589934592) <= target - (value + Double.shortestDeltaDegrees value h)
               <= 1 # 8589934592).
  { unfold target, Double.nextRotation, Double.add. cbv zeta.
    apply round_near_large. apply Qabs_below; Lqa.lra. }
  destruct (double_delta_spec target h) as (j1 & E1 & B1).
  destruct (double_clamp_spec target) as (jt & Et & _).
  set (d0 := Double.shortestDeltaDegrees value h) in *.
  set (d1 := Double.shortestDeltaDegrees target h) in *.
  set (H := Double.clampHeadingDegrees h) in *.
  set (A := Double.clampHeadingDegrees value) in *.
  set (T := Double.clampHeadingDegrees target) in *.
  assert (K : (j1 + jt - ja - j0 = 0)%Z).
  { apply (small_multiple_is_zero _ (d1 - 360 * inject_Z (j1 + jt - ja - j0))).
    - split; Lqa.lra.
    - unfold Zminus. rewrite !inject_Z_plus, !inject_Z_opp. split; Lqa.lra. }
  assert (Kq : inject_Z j1 == - inject_Z jt + inject_Z ja + inject_Z j0).
  { replace j1 with (- jt + ja + j0)%Z by lia.
    rewrite !inject_Z_plus, inject_Z_opp. reflexivity. }
  assert (D1 : - (1 # 4294967296) <= d1 <= 1 # 4294967296) by (split; Lqa.lra).
  split; [apply Qabs_Qle_condition; exact D1|].
  unfold Double.nextRotation, Double.add. cbv zeta. fold d1.
  pose proof (round_near_large (target + d1) ltac:(apply Qabs_below; Lqa.lra)) as R.
  apply Qabs_Qle_condition. split; Lqa.lra.
Qed.

Lemma repeated_sample_settles_up_to_rounding_at_810 :
  heading (Nat.iter 1 (fun st => onSample1 st (mkReading 8 (-9) 0)) mount)
  = headingFromMagnetometer1 (mkReading 8 (-9) 0) /\
  let target := Double.nextRotation 810 (5859399757571637 # 140737488355328) in
  Qabs (Double.shortestDeltaDegrees target (5859399757571637 # 140737488355328))
  <= 1 # 4294967296 /\
  Qabs (Double.nextRotation target (5859399757571637 # 140737488355328) - target)
  <= 1 # 2147483648.
Proof.
  apply (repeated_sample_settles_up_to_rounding mount (mkReading 8 (-9) 0) 0).
  apply Qle_bool_iff. vm_compute. reflexivity.
Defined.

End DoubleFacts.
